(** * HorusDemodLib: the [Encoder] binding of [horusdemodlib/encoder.py]

    The Python class [Encoder] is a thin [ctypes] binding: it loads the native
    library [libhorus], calls [horus_l2_init] in its constructor and forwards
    [get_num_tx_data_bytes], [horus_l2_encode_packet] and
    [horus_l2_decode_packet] to the native entry points, allocating the
    [c_ubyte] arrays the native code reads and fills.

    The embedding follows that split.  Python values, exceptions and the calls
    into the native library are modelled first; the binding is then written
    over an arbitrary native library ([NativeLib]); finally the layer-2 codec
    that lives in the native library, which is not part of the Python source,
    is modelled from the specification and plugged in as one [NativeLib].

    Conventions: a Python [int] is a [Z]; a [bytes] object is a
    [list Byte.byte].  Where an integer of the caller crosses into [ctypes]
    (the payload size given to the decoder, the argument of a size query)
    the conversions of [ctypes] are modelled: [Py_ssize_t] for an array
    length, a 32-bit C [int] for an argument.  The length of a [bytes]
    object and the C [int] the native code returns are taken below [2^31],
    where these conversions change nothing: the encoder passes them on as
    they are.  Memory is not modelled (no [MemoryError]). *)

From Stdlib Require Import String Ascii.
From Stdlib.Strings Require Import Byte.
From Stdlib Require Import List ZArith Lia Bool.
From Stdlib Require DecimalString.
Import ListNotations.
Local Open Scope Z_scope.

(** [PACKET_MAX_SIZE] *)
Definition PACKET_MAX_SIZE : Z := 1024.

(** ** Python values and exceptions *)

Inductive pytype : Type :=
| TNone | TBool | TInt | TStr | TBytes | TByteArray | TList | TTuple.

Inductive pyval : Type :=
| PyNone
| PyBool (b : bool)
| PyInt (z : Z)
| PyStr (s : string)
| PyBytes (l : list byte)
| PyByteArray (l : list byte)
| PyList (l : list pyval)
| PyTuple (l : list pyval).

(** [type(v)] *)
Definition type_of (v : pyval) : pytype :=
  match v with
  | PyNone => TNone
  | PyBool _ => TBool
  | PyInt _ => TInt
  | PyStr _ => TStr
  | PyBytes _ => TBytes
  | PyByteArray _ => TByteArray
  | PyList _ => TList
  | PyTuple _ => TTuple
  end.

Definition pytype_eqb (a b : pytype) : bool :=
  match a, b with
  | TNone, TNone | TBool, TBool | TInt, TInt | TStr, TStr
  | TBytes, TBytes | TByteArray, TByteArray | TList, TList
  | TTuple, TTuple => true
  | _, _ => false
  end.

(** The bytes held by a value whose type is [bytes]. *)
Definition bytes_of (v : pyval) : list byte :=
  match v with
  | PyBytes l => l
  | _ => []
  end.

(** [len(b)] of a bytes object, as a Python int. *)
Definition len (l : list byte) : Z := Z.of_nat (length l).

(** The [__index__] protocol, which [c_ubyte * n] and the conversion of an
    argument to a C [int] use: [int] and its subclass [bool] have it. *)
Definition index_of (v : pyval) : option Z :=
  match v with
  | PyInt z => Some z
  | PyBool b => Some (if b then 1 else 0)
  | _ => None
  end.

(** The exceptions that can leave the binding, with their message (those
    raised inside [ctypes] are cut after the fixed part). *)
Inductive pyexc : Type :=
| TypeError (msg : string)
| ValueError (msg : string)
| OSError (msg : string)
| ArgumentError (msg : string)
| OverflowError (msg : string)
| AttributeError (msg : string).

Inductive result (A : Type) : Type :=
| Ok (a : A)
| Raise (e : pyexc).
Arguments Ok {A} a.
Arguments Raise {A} e.

(** ** The native library and the process it is loaded in *)

(** The entry points of [libhorus] the binding declares.  The native code
    receives pointers; here an entry point gets the content of the input
    array and returns the bytes it stores, from offset 0, into the output
    array.  [horus_l2_init] takes no argument and returns nothing: its only
    trace is the call itself. *)
Record NativeLib : Type := {
  horus_l2_get_num_tx_data_bytes : Z -> Z;
  horus_l2_encode_tx_packet : list byte -> Z -> list byte * Z;
  horus_l2_decode_rx_packet : list byte -> Z -> list byte;
  horus_l2_gen_crc16 : list byte -> Z -> Z
}.

(** What [ctypes.cdll.LoadLibrary] hands over: the symbols the shared object
    exports, and the code behind the entry points. *)
Record SharedObject : Type := {
  exports : list string;
  entry_points : NativeLib
}.

(** A call into the native library. *)
Inductive native_call : Type :=
| CallInit
| CallGetNumTxDataBytes (n : Z)
| CallEncodeTxPacket (payload : list byte) (n : Z)
| CallDecodeRxPacket (rx : list byte) (n : Z).

(** The state of the process: the native calls made so far, oldest first. *)
Record proc : Type := { calls : list native_call }.

Definition initial : proc := {| calls := [] |}.

Definition is_init (c : native_call) : bool :=
  match c with CallInit => true | _ => false end.

Definition is_encode (c : native_call) : bool :=
  match c with CallEncodeTxPacket _ _ => true | _ => false end.

(** How many times [horus_l2_init] has run in the process. *)
Definition init_runs (s : proc) : nat :=
  length (filter is_init (calls s)).

(** ** Computations: state of the process and Python exceptions *)

Definition M (A : Type) : Type := proc -> result A * proc.

Definition ret {A} (a : A) : M A := fun s => (Ok a, s).

Definition raise {A} (e : pyexc) : M A := fun s => (Raise e, s).

Definition bind {A B} (m : M A) (k : A -> M B) : M B :=
  fun s =>
    match m s with
    | (Ok a, s') => k a s'
    | (Raise e, s') => (Raise e, s')
    end.

Declare Scope py_scope.
Delimit Scope py_scope with py.
Notation "x <- m ;; k" := (bind m (fun x => k))
  (at level 100, m at next level, right associativity) : py_scope.
Notation "' p <- m ;; k" := (bind m (fun p => k))
  (at level 100, p pattern, m at next level, right associativity) : py_scope.
Local Open Scope py_scope.

(** Records a native call and returns what the native code computed. *)
Definition native {A} (c : native_call) (a : A) : M A :=
  fun s => (Ok a, {| calls := calls s ++ [c] |}).

(** ** [ctypes] arrays *)

Definition zero_byte : byte := x00.

Definition PY_SSIZE_T_MAX : Z := 2 ^ 63 - 1.

Definition INT_MAX : Z := 2 ^ 31 - 1.

(** The 32 low bits of [z], read as a signed C [int]. *)
Definition c_int_of (z : Z) : Z := (z + 2 ^ 31) mod 2 ^ 32 - 2 ^ 31.

(** The length in [c_ubyte * n], as the [Py_ssize_t] a sequence is repeated
    by: [n] must be index-like and fit. *)
Definition as_ssize_t (n : pyval) : M Z :=
  match index_of n with
  | None => raise (TypeError "can't multiply sequence by non-int")
  | Some z =>
      if (z <? - 2 ^ 63) || (PY_SSIZE_T_MAX <? z)
      then raise (OverflowError
                    "cannot fit 'int' into an index-sized integer")
      else ret z
  end.

(** [(c_ubyte * n)()], for a length that fits [Py_ssize_t]: the array type
    needs an index-like, non-negative length; the instance is
    zero-filled. *)
Definition c_ubyte_array (n : pyval) : M (list byte) :=
  match index_of n with
  | None => raise (TypeError "can't multiply sequence by non-int")
  | Some z =>
      if z <? 0 then raise (ValueError "Array length must be >= 0")
      else ret (repeat zero_byte (Z.to_nat z))
  end.

(** An argument passed where the native code takes a C [int], no
    [argtypes] being set: an [int] that fits neither [unsigned long] nor
    [long] is refused, any other is cut to its 32 low bits. *)
Definition c_int_arg (v : pyval) : M Z :=
  match index_of v with
  | None => raise (ArgumentError "Don't know how to convert parameter")
  | Some z =>
      if (z <? - 2 ^ 63) || (2 ^ 64 <=? z)
      then raise (ArgumentError "int too long to convert")
      else ret (c_int_of z)
  end.

(** [(c_ubyte * len(b)).from_buffer_copy(b)]: an array holding a copy. *)
Definition from_buffer_copy (b : list byte) : list byte := b.

(** The array [dst] after native code stored [src] into it from offset 0.
    The array keeps its length: what does not fit is outside the array. *)
Definition stored (src dst : list byte) : list byte :=
  firstn (length dst) src ++ skipn (length src) dst.

(** ** The binding: class [Encoder] *)

Record Encoder : Type := { c_lib : NativeLib }.

Section Binding.

(** What the binding takes from its environment: [sys.platform],
    [os.path.join] and the libraries [ctypes.cdll.LoadLibrary] finds. *)
Variable sys_platform : string.
Variable os_path_join : string -> string -> string.
Variable LoadLibrary : string -> option SharedObject.

(** [self.c_lib.name]: the first access to an entry point looks the symbol
    up in the shared object. *)
Definition symbol (so : SharedObject) (name : string) : M unit :=
  if existsb (String.eqb name) (exports so) then ret tt
  else raise (AttributeError name).

(** [Encoder.__init__].  Setting [restype] and [argtype] calls nothing, but
    reaches each entry point, in the order of the statements; the last
    statement calls [horus_l2_init]. *)
Definition Encoder_init (libpath : string) : M Encoder :=
  let libpath :=
    if String.eqb sys_platform "darwin"
    then os_path_join libpath "libhorus.dylib"
    else if String.eqb sys_platform "win32"
    then os_path_join libpath "libhorus.dll"
    else os_path_join libpath "libhorus.so" in
  match LoadLibrary libpath with
  | None => raise (OSError libpath)
  | Some so =>
      _ <- symbol so "horus_l2_get_num_tx_data_bytes" ;;
      _ <- symbol so "horus_l2_encode_tx_packet" ;;
      _ <- symbol so "horus_l2_decode_rx_packet" ;;
      _ <- symbol so "horus_l2_gen_crc16" ;;
      _ <- symbol so "horus_l2_init" ;;
      _ <- native CallInit tt ;;
      ret {| c_lib := entry_points so |}
  end.

End Binding.

(** [Encoder.close]: does nothing. *)
Definition close (self : Encoder) : M unit := ret tt.

(** [Encoder.__enter__] and [Encoder.__exit__], for the [with] statement. *)
Definition Encoder_enter (self : Encoder) : M Encoder := ret self.

Definition Encoder_exit (self : Encoder) : M unit := close self.

(** [Encoder.get_num_tx_data_bytes], for an argument that is a C [int]
    already (a length, a protocol size) and a library that answers with a C
    [int]: the conversions of [ctypes] are then the identity. *)
Definition get_num_tx_data_bytes (self : Encoder) (packet_size : Z) : M Z :=
  native (CallGetNumTxDataBytes packet_size)
         (horus_l2_get_num_tx_data_bytes (c_lib self) packet_size).

(** [Encoder.get_num_tx_data_bytes] as a caller reaches it with any [int]
    ([int(packet_size)] is then the identity): the argument is converted to
    the C [int] the native code takes, and the answer is the C [int] it
    returns ([restype = c_int]). *)
Definition get_num_tx_data_bytes_call (self : Encoder) (packet_size : Z)
    : M Z :=
  n <- c_int_arg (PyInt packet_size) ;;
  r <- get_num_tx_data_bytes self n ;;
  ret (c_int_of r).

(** [Encoder.horus_l2_encode_packet].  The array length is the C [int] of
    the size query and the third argument is [len(packet)]: both pass
    unchanged. *)
Definition horus_l2_encode_packet (self : Encoder) (packet : pyval) : M pyval :=
  if negb (pytype_eqb (type_of packet) TBytes)
  then raise (TypeError "Input to encode_packet must be bytes!")
  else
    let _unencoded := from_buffer_copy (bytes_of packet) in
    _num_encoded_bytes <- get_num_tx_data_bytes self (len (bytes_of packet)) ;;
    _encoded <- c_ubyte_array (PyInt _num_encoded_bytes) ;;
    ' (written, _num_bytes) <-
        native (CallEncodeTxPacket _unencoded (len (bytes_of packet)))
               (horus_l2_encode_tx_packet (c_lib self) _unencoded
                                          (len (bytes_of packet))) ;;
    ret (PyTuple [PyBytes (stored written _encoded); PyInt _num_bytes]).

(** [Encoder.horus_l2_decode_packet] *)
Definition horus_l2_decode_packet (self : Encoder)
    (packet num_payload_bytes : pyval) : M pyval :=
  if negb (pytype_eqb (type_of packet) TBytes)
  then raise (TypeError "Input to encode_packet must be bytes!")
  else
    let _encoded := from_buffer_copy (bytes_of packet) in
    array_len <- as_ssize_t num_payload_bytes ;;
    _decoded <- c_ubyte_array (PyInt array_len) ;;
    n <- c_int_arg num_payload_bytes ;;
    written <-
      native (CallDecodeRxPacket _encoded n)
             (horus_l2_decode_rx_packet (c_lib self) _encoded n) ;;
    ret (PyBytes (stored written _decoded)).

(** ** The layer-2 codec inside the native library

    The native code is not part of the Python source.  Its pipeline is
    modelled from the specification: checksum, (23,12) block code,
    interleaver, scrambler and framing.  The protocol constants the
    specification leaves open (checksum seed, generator matrix, permutation,
    scrambling sequence) are the fields of a [Codec]. *)

(** *** Bits, MSB first *)

Definition bits_of_byte (b : byte) : list bool :=
  let '(b0, (b1, (b2, (b3, (b4, (b5, (b6, b7))))))) := Byte.to_bits b in
  [b7; b6; b5; b4; b3; b2; b1; b0].

Definition byte_of_bits (l : list bool) : byte :=
  Byte.of_bits (nth 7 l false, (nth 6 l false, (nth 5 l false,
               (nth 4 l false, (nth 3 l false, (nth 2 l false,
               (nth 1 l false, nth 0 l false))))))).

Definition bits_of_bytes (l : list byte) : list bool :=
  flat_map bits_of_byte l.

(** The [w] low bits of [z]. *)
Fixpoint bits_of_Z (w : nat) (z : Z) : list bool :=
  match w with
  | O => []
  | S w' => Z.testbit z (Z.of_nat w') :: bits_of_Z w' z
  end.

Fixpoint Z_of_bits (l : list bool) : Z :=
  match l with
  | [] => 0
  | b :: l' => (if b then 2 ^ Z.of_nat (length l') else 0) + Z_of_bits l'
  end.

(** [l] cut or zero-padded to [k] bits. *)
Definition resize (k : nat) (l : list bool) : list bool :=
  firstn k (l ++ repeat false k).

(** The first [c] groups of [k] bits of [l], the last ones zero-padded. *)
Fixpoint chunks (k c : nat) (l : list bool) : list (list bool) :=
  match c with
  | O => []
  | S c' => resize k l :: chunks k c' (skipn k l)
  end.

(** Rounded-up quotient. *)
Definition cdiv (a b : Z) : Z := (a + b - 1) / b.

(** Bits packed into whole bytes. *)
Definition bytes_of_bits (l : list bool) : list byte :=
  map byte_of_bits (chunks 8 (Z.to_nat (cdiv (Z.of_nat (length l)) 8)) l).

Definition Z_of_byte (b : byte) : Z := Z.of_N (Byte.to_N b).

(** *** Protocol constants *)

(** What the block decoder reports for one codeword. *)
Inductive fec_errors : Type :=
| Corrected (n : nat)
| Uncorrectable.

Record Codec : Type := {
  crc_init : Z;
  fec_encode : Z -> Z;
  fec_decode : Z -> Z * fec_errors;
  interleave : list bool -> list bool;
  deinterleave : list bool -> list bool;
  scramble_seq : nat -> bool
}.

(** What the specification requires of the constants, as far as an
    error-free channel is concerned: codewords have 23 bits, an undamaged
    codeword decodes to its data with no error counted, and the interleaver
    is a permutation undone by its inverse. *)
Record CodecLaws (cd : Codec) : Prop := {
  fec_encode_range :
    forall d, 0 <= d < 2 ^ 12 -> 0 <= fec_encode cd d < 2 ^ 23;
  fec_decode_encode :
    forall d, 0 <= d < 2 ^ 12 ->
      fec_decode cd (fec_encode cd d) = (d, Corrected 0);
  interleave_length :
    forall l, length (interleave cd l) = length l;
  deinterleave_interleave :
    forall l, deinterleave cd (interleave cd l) = l
}.

(** *** Checksum *)

Definition u16 (x : Z) : Z := x mod 65536.

Definition crc16_shift (crc : Z) : Z :=
  if Z.testbit crc 15
  then u16 (Z.lxor (Z.shiftl crc 1) 0x1021)
  else u16 (Z.shiftl crc 1).

Definition crc16_update (crc : Z) (b : byte) : Z :=
  Nat.iter 8 crc16_shift (Z.lxor crc (Z.shiftl (Z_of_byte b) 8)).

(** Modelled from the spec: the CRC generator of the native library,
    [crc16(bytes) -> u16] with the CCITT/XMODEM polynomial; the seed is a
    protocol constant. *)
Definition crc16 (init : Z) (l : list byte) : Z :=
  u16 (fold_left crc16_update l (u16 init)).

(** *** Framing *)

Inductive sync_status : Type := Synced | NotSynced.

(** The unique word, [0x24 0x24]. *)
Definition unique_word : list byte := [x24; x24].

(** Modelled from the spec: the framer of the native library, which prepends
    the unique word to the byte-packed block. *)
Definition frame (block : list bool) : list byte :=
  unique_word ++ bytes_of_bits block.

(** Modelled from the spec: the receive side of the framer, which checks that
    the first two bytes are the unique word and hands over the rest. *)
Definition deframe (rx : list byte) : sync_status * list byte :=
  match rx with
  | a :: b :: region =>
      if Byte.eqb a x24 && Byte.eqb b x24 then (Synced, region)
      else (NotSynced, region)
  | _ => (NotSynced, [])
  end.

(** *** Sizes *)

Definition checksum_bits : Z := 16.

(** Codewords needed for a payload and its checksum. *)
Definition num_codewords (payload_len : Z) : Z :=
  cdiv (payload_len * 8 + checksum_bits) 12.

Definition encoded_bit_count (payload_len : Z) : Z :=
  num_codewords payload_len * 23.

(** Modelled from the spec: [get_transmit_size], the size of the coded block,
    [ceil((payload_len*8 + checksum_bits) / 12) * 23] bits rounded up to
    whole bytes. *)
Definition get_transmit_size (payload_len : Z) : Z :=
  cdiv (encoded_bit_count payload_len) 8.

(** Modelled from the spec: [transmit_size], what the native
    [horus_l2_get_num_tx_data_bytes] answers, the size of the buffer a caller
    allocates for a frame (uw+packet+fec, in the words of the binding):
    [2 + ceil(encoded_bit_count / 8)]. *)
Definition transmit_size (payload_len : Z) : Z :=
  2 + get_transmit_size payload_len.

(** *** The pipeline *)

(** What the native decoder knows after decoding a frame.  Only [rx_payload]
    is stored into the caller's array. *)
Record rx_result : Type := {
  rx_sync : sync_status;
  rx_payload : list byte;
  rx_checksum_ok : bool;
  rx_error_counts : list fec_errors
}.

Section Pipeline.

Variable cd : Codec.

Fixpoint scramble_from (i : nat) (l : list bool) : list bool :=
  match l with
  | [] => []
  | b :: l' => xorb b (scramble_seq cd i) :: scramble_from (S i) l'
  end.

(** Modelled from the spec: the scrambler of the native library, XOR with
    a fixed pseudorandom sequence; it is its own inverse. *)
Definition scramble (l : list bool) : list bool := scramble_from 0 l.

(** One 12-bit group to its 23-bit codeword, and back. *)
Definition encode_group (g : list bool) : list bool :=
  bits_of_Z 23 (fec_encode cd (Z_of_bits g)).

Definition decode_group (g : list bool) : Z * fec_errors :=
  fec_decode cd (Z_of_bits g).

(** Modelled from the spec: [encode] of the native library: checksum
    appended, 12-bit groups (the last one zero-padded), block code,
    interleaver, scrambler, frame. *)
Definition encode_frame (payload : list byte) : list byte :=
  let data := bits_of_bytes payload
              ++ bits_of_Z 16 (crc16 (crc_init cd) payload) in
  let k := Z.to_nat (num_codewords (len payload)) in
  let coded := flat_map encode_group (chunks 12 k data) in
  frame (scramble (interleave cd coded)).

(** Modelled from the spec: [decode] of the native library, the inverse
    order: de-frame, descramble, de-interleave, block decode, checksum.
    The native entry point is not told how long the received array is:
    bits missing from a short array read as 0.  Without the unique word
    nothing is decoded. *)
Definition decode_frame (rx : list byte) (payload_len : Z) : rx_result :=
  match deframe rx with
  | (NotSynced, _) =>
      {| rx_sync := NotSynced; rx_payload := [];
         rx_checksum_ok := false; rx_error_counts := [] |}
  | (Synced, region) =>
      let k := Z.to_nat (num_codewords payload_len) in
      let n := Z.to_nat payload_len in
      let block := resize (23 * k) (bits_of_bytes region) in
      let coded := deinterleave cd (scramble block) in
      let decoded := map decode_group (chunks 23 k coded) in
      let data := flat_map (fun r => bits_of_Z 12 (fst r)) decoded in
      let payload := map byte_of_bits (chunks 8 n data) in
      let checksum := Z_of_bits (resize 16 (skipn (8 * n) data)) in
      {| rx_sync := Synced; rx_payload := payload;
         rx_checksum_ok := Z.eqb (crc16 (crc_init cd) payload) checksum;
         rx_error_counts := map snd decoded |}
  end.

(** The native library with this codec. *)
Definition horus_lib : NativeLib := {|
  horus_l2_get_num_tx_data_bytes := transmit_size;
  horus_l2_encode_tx_packet := fun payload n =>
    let tx := encode_frame (firstn (Z.to_nat n) payload) in (tx, len tx);
  horus_l2_decode_rx_packet := fun rx n => rx_payload (decode_frame rx n);
  horus_l2_gen_crc16 := fun data n =>
    crc16 (crc_init cd) (firstn (Z.to_nat n) data)
|}.

End Pipeline.

(** *** One set of constants

    The specification names the (23,12) Golay code and leaves the generator,
    the permutation and the scrambling sequence open.  The constants below
    are one admissible choice: a cyclic Golay code decoded with a syndrome
    table, a prime-step interleaver and a 15-bit additive scrambler.  They
    make the pipeline run and show that [CodecLaws] can be met. *)

(** Generator polynomial of the (23,12) Golay code. *)
Definition golay_genpoly : Z := 0xC75.

(** Remainder of the division by the generator: bits [11 + i - 1] down to
    [11] are cleared in turn. *)
Fixpoint golay_reduce (i : nat) (x : Z) : Z :=
  match i with
  | O => x
  | S i' =>
      golay_reduce i'
        (if Z.testbit x (Z.of_nat (11 + i'))
         then Z.lxor x (Z.shiftl golay_genpoly (Z.of_nat i'))
         else x)
  end.

Definition golay_syndrome (x : Z) : Z := golay_reduce 12 x.

(** Systematic encoding: 12 data bits, then 11 parity bits. *)
Definition golay_encode (d : Z) : Z :=
  let x := Z.shiftl d 11 in Z.lor x (golay_syndrome x).

Definition bit_at (i : nat) : Z := Z.shiftl 1 (Z.of_nat i).

(** Number of bits set among the 23 of a codeword. *)
Definition weight (x : Z) : nat :=
  length (filter (fun i => Z.testbit x (Z.of_nat i)) (seq 0 23)).

(** The error patterns of weight at most 3. *)
Definition golay_error_patterns : list Z :=
  0 :: map bit_at (seq 0 23)
    ++ flat_map (fun i => map (fun j => bit_at i + bit_at j) (seq 0 i))
                (seq 0 23)
    ++ flat_map (fun i =>
         flat_map (fun j =>
           map (fun k => bit_at i + bit_at j + bit_at k) (seq 0 j))
           (seq 0 i))
         (seq 0 23).

(** The syndrome table: each correctable pattern with its syndrome. *)
Definition golay_table : list (Z * Z) :=
  Eval vm_compute in
    map (fun e => (golay_syndrome e, e)) golay_error_patterns.

Definition golay_decode (cw : Z) : Z * fec_errors :=
  let s := golay_syndrome cw in
  match find (fun p => fst p =? s) golay_table with
  | Some (_, e) => (Z.shiftr (Z.lxor cw e) 11, Corrected (weight e))
  | None => (Z.shiftr cw 11, Uncorrectable)
  end.

(** Whether the coder is right on one data word: the codeword has 23 bits
    and decodes to the word with no error counted. *)
Definition golay_word_ok (d : Z) : bool :=
  let c := golay_encode d in
  (0 <=? c) && (c <? 2 ^ 23)
  && match golay_decode c with
     | (d', Corrected O) => d' =? d
     | _ => false
     end.

(** Whether a data word gives a codeword: no syndrome, data in the high
    bits. *)
Definition golay_codeword_ok (d : Z) : bool :=
  (golay_syndrome (golay_encode d) =? 0)
  && (Z.shiftr (golay_encode d) 11 =? d).

(** Whether the syndrome table leads from the syndrome of a pattern back to
    that pattern. *)
Definition golay_pattern_ok (e : Z) : bool :=
  match find (fun p => fst p =? golay_syndrome e) golay_table with
  | Some (_, e') => e' =? e
  | None => false
  end.

(** The scrambler: a 15-bit shift register seeded with [0x4a80]. *)
Definition lfsr_out (s : Z) : bool := xorb (Z.testbit s 1) (Z.testbit s 0).

Definition lfsr_next (s : Z) : Z :=
  Z.lor (Z.shiftr s 1) (if lfsr_out s then 2 ^ 14 else 0).

Definition lfsr_seq (i : nat) : bool := lfsr_out (Nat.iter i lfsr_next 0x4a80).

(** The interleaver: bit [i] goes to position [b * i mod n], with [b] the
    largest prime below the number [n] of bits; when [b] has no inverse
    modulo [n] the block is left in order. *)
Definition is_prime (p : nat) : bool :=
  (2 <=? p)%nat
  && forallb (fun d => negb (Nat.eqb (p mod d) 0)) (seq 2 (p - 2)).

Definition interleave_step (n : nat) : Z :=
  match find is_prime (rev (seq 0 n)) with
  | Some b => Z.of_nat b
  | None => 1
  end.

Definition step_inverse (b : Z) (n : nat) : option Z :=
  find (fun c => (b * c) mod Z.of_nat n =? 1) (map Z.of_nat (seq 0 n)).

(** Output bit [j] is input bit [m * j mod n]. *)
Definition permute (m : Z) (l : list bool) : list bool :=
  map (fun j =>
         nth (Z.to_nat ((m * Z.of_nat j) mod Z.of_nat (length l))) l false)
      (seq 0 (length l)).

Definition prime_interleave (l : list bool) : list bool :=
  match step_inverse (interleave_step (length l)) (length l) with
  | Some c => permute c l
  | None => l
  end.

Definition prime_deinterleave (l : list bool) : list bool :=
  match step_inverse (interleave_step (length l)) (length l) with
  | Some _ => permute (interleave_step (length l)) l
  | None => l
  end.

Definition horus_codec : Codec := {|
  crc_init := 0xFFFF;
  fec_encode := golay_encode;
  fec_decode := golay_decode;
  interleave := prime_interleave;
  deinterleave := prime_deinterleave;
  scramble_seq := lfsr_seq
|}.

(** The native library with these constants. *)
Definition libhorus : NativeLib := horus_lib horus_codec.

(** ** The module's own sample data and a process using the module *)

(** [horus_v1_unencoded], the payload of the module's encoder check. *)
Definition horus_v1_unencoded_bytes : list byte :=
  [x00; x09; x00; x07; x1e; x2a; x00; x00; x00; x00; x00; x00; x00; x00;
   x00; x00; x00; x00; x25; x9a; x6b; x14].

(** [horus_v1_encoded], the frame of the module's decoder check. *)
Definition horus_v1_encoded_bytes : list byte :=
  [x24; x24; xc0; x6b; x30; x0d; x04; x15; xc5; xdb; xd3; x32; xef; xd7;
   xc1; x90; xd7; xaf; x7f; x3c; x28; x91; xde; x9f; x4b; xa1; xeb; x2b;
   x43; x7b; xe1; xe2; xd8; x41; x9d; x3d; xc9; xe4; x4f; xdf; x78; xda;
   xa0; x7a; x98].

(** [os.path.join] of [posixpath], for a relative second component. *)
Fixpoint ends_with_slash (s : string) : bool :=
  match s with
  | EmptyString => false
  | String c EmptyString => Ascii.eqb c "/"
  | String _ s' => ends_with_slash s'
  end.

Definition posix_join (a b : string) : string :=
  if String.eqb a "" || ends_with_slash a then a ++ b
  else a ++ "/" ++ b.

(** What a process does with the module, one step at a time. *)
Inductive action : Type :=
| New (libpath : string)
| GetNumTxDataBytes (self : Encoder) (packet_size : Z)
| EncodePacket (self : Encoder) (packet : pyval)
| DecodePacket (self : Encoder) (packet num_payload_bytes : pyval)
| Close (self : Encoder).

Section Process.

Variable sys_platform : string.
Variable os_path_join : string -> string -> string.
Variable LoadLibrary : string -> option SharedObject.

(** The process after one step; an exception is the caller's to handle
    and leaves the process running. *)
Definition perform (s : proc) (a : action) : proc :=
  match a with
  | New libpath =>
      snd (Encoder_init sys_platform os_path_join LoadLibrary libpath s)
  | GetNumTxDataBytes self n => snd (get_num_tx_data_bytes self n s)
  | EncodePacket self p => snd (horus_l2_encode_packet self p s)
  | DecodePacket self p n => snd (horus_l2_decode_packet self p n s)
  | Close self => snd (close self s)
  end.

Definition run (acts : list action) (s : proc) : proc :=
  fold_left perform acts s.

(** Whether a step is a constructor call that succeeds. *)
Definition constructs (a : action) : bool :=
  match a with
  | New libpath =>
      match fst (Encoder_init sys_platform os_path_join LoadLibrary
                              libpath initial) with
      | Ok _ => true
      | Raise _ => false
      end
  | _ => false
  end.

Definition constructions (acts : list action) : nat :=
  length (filter constructs acts).

End Process.

(** The entry points the binding reaches. *)
Definition horus_exports : list string :=
  ["horus_l2_get_num_tx_data_bytes"; "horus_l2_encode_tx_packet";
   "horus_l2_decode_rx_packet"; "horus_l2_gen_crc16";
   "horus_l2_init"]%string.

(** [libhorus] as a shared object. *)
Definition libhorus_so : SharedObject :=
  {| exports := horus_exports; entry_points := libhorus |}.

(** A Linux process in which every path leads to [libhorus]. *)
Definition linux_run : list action -> proc -> proc :=
  run "linux" posix_join (fun _ => Some libhorus_so).

(** An encoder bound to a native library. *)
Definition encoder_of (lib : NativeLib) : Encoder := {| c_lib := lib |}.

(** ** The [with] statement over an encoder *)

(** [with expr as var: body], for an [expr] that gives an [Encoder]:
    [__enter__] gives the variable; [__exit__] runs when the body ends,
    also by an exception, which is raised again because [__exit__] returns
    [None]. *)
Definition with_Encoder {A} (expr : M Encoder) (body : Encoder -> M A) : M A :=
  fun s =>
    match expr s with
    | (Raise e, s1) => (Raise e, s1)
    | (Ok mgr, s1) =>
        match Encoder_enter mgr s1 with
        | (Raise e, s2) => (Raise e, s2)
        | (Ok var, s2) =>
            match body var s2 with
            | (Ok a, s3) =>
                match Encoder_exit mgr s3 with
                | (Ok _, s4) => (Ok a, s4)
                | (Raise e', s4) => (Raise e', s4)
                end
            | (Raise e, s3) =>
                match Encoder_exit mgr s3 with
                | (Ok tt, s4) => (Raise e, s4)
                | (Raise e', s4) => (Raise e', s4)
                end
            end
        end
    end.

(** ** A client that holds the encoders it constructed *)

(** A method call on an encoder. *)
Inductive method : Type :=
| MGetNumTxDataBytes (packet_size : Z)
| MEncodePacket (packet : pyval)
| MDecodePacket (packet num_payload_bytes : pyval)
| MClose.

(** A statement of the client: construct an encoder, or call a method on
    the [obj]-th encoder constructed so far. *)
Inductive statement : Type :=
| Construct (libpath : string)
| Invoke (obj : nat) (m : method).

(** The encoders the client holds, oldest first, and the process. *)
Record session : Type := { objects : list Encoder; process : proc }.

Definition action_of (self : Encoder) (m : method) : action :=
  match m with
  | MGetNumTxDataBytes n => GetNumTxDataBytes self n
  | MEncodePacket p => EncodePacket self p
  | MDecodePacket p n => DecodePacket self p n
  | MClose => Close self
  end.

Section Session.

Variable sys_platform : string.
Variable os_path_join : string -> string -> string.
Variable LoadLibrary : string -> option SharedObject.

(** One statement.  A constructor that raises gives no object; a call on an
    object that does not exist never reaches the module. *)
Definition execute (st : session) (c : statement) : session :=
  match c with
  | Construct libpath =>
      match Encoder_init sys_platform os_path_join LoadLibrary libpath
                         (process st) with
      | (Ok e, s') => {| objects := objects st ++ [e]; process := s' |}
      | (Raise _, s') => {| objects := objects st; process := s' |}
      end
  | Invoke obj m =>
      match nth_error (objects st) obj with
      | Some self =>
          {| objects := objects st;
             process := perform sys_platform os_path_join LoadLibrary
                                (process st) (action_of self m) |}
      | None => st
      end
  end.

Definition session_run (prog : list statement) : session :=
  fold_left execute prog {| objects := []; process := initial |}.

End Session.

(** What holds of a client at every point: without an encoder no native call
    has been made; the first native call is the initialisation; it has run
    once for each encoder held. *)
Definition session_ok (st : session) : Prop :=
  (objects st = [] -> calls (process st) = [])
  /\ match calls (process st) with
     | [] => True
     | c :: _ => c = CallInit
     end
  /\ init_runs (process st) = length (objects st).

(** A native library whose size query answers [-1], to run the binding on
    a size that is no array length. *)
Definition undersized_lib : NativeLib := {|
  horus_l2_get_num_tx_data_bytes := fun _ => -1;
  horus_l2_encode_tx_packet := fun _ _ => ([], -1);
  horus_l2_decode_rx_packet := fun _ _ => [];
  horus_l2_gen_crc16 := fun _ _ => 0
|}.

(** ** What the native calls of a process look like *)

(** On the calls newest first: every call of the native encoder passes the
    length of the payload array and comes right after a size query for that
    length. *)
Fixpoint encodes_sized (newest_first : list native_call) : bool :=
  match newest_first with
  | [] => true
  | CallEncodeTxPacket p n :: older =>
      (n =? len p)
      && match older with
         | CallGetNumTxDataBytes m :: _ => m =? n
         | _ => false
         end
      && encodes_sized older
  | _ :: older => encodes_sized older
  end.

Definition encode_calls_sized (s : proc) : bool :=
  encodes_sized (rev (calls s)).

(** ** The module run as a script *)

(** [str(n)] of an [int]. *)
Definition str_of_int (z : Z) : string :=
  DecimalString.NilZero.string_of_int (Z.to_int z).

Definition hex_digit (n : N) : ascii :=
  match n with
  | 0%N => "0" | 1%N => "1" | 2%N => "2" | 3%N => "3" | 4%N => "4"
  | 5%N => "5" | 6%N => "6" | 7%N => "7" | 8%N => "8" | 9%N => "9"
  | 10%N => "a" | 11%N => "b" | 12%N => "c" | 13%N => "d" | 14%N => "e"
  | _ => "f"
  end%char.

(** [codecs.encode(b, 'hex').decode()]: two lower-case digits a byte. *)
Fixpoint hexlify (l : list byte) : string :=
  match l with
  | [] => EmptyString
  | b :: l' =>
      String (hex_digit (Byte.to_N b / 16))
        (String (hex_digit (Byte.to_N b mod 16)) (hexlify l'))
  end.

(** [str.upper()] on ASCII text. *)
Definition ascii_upper (c : ascii) : ascii :=
  let n := N_of_ascii c in
  if ((97 <=? n) && (n <=? 122))%N then ascii_of_N (n - 32) else c.

Fixpoint upper (s : string) : string :=
  match s with
  | EmptyString => EmptyString
  | String c s' => String (ascii_upper c) (upper s')
  end.

Definition hex_value (c : ascii) : option N :=
  let n := N_of_ascii c in
  if ((48 <=? n) && (n <=? 57))%N then Some (n - 48)%N
  else if ((97 <=? n) && (n <=? 102))%N then Some (n - 87)%N
  else if ((65 <=? n) && (n <=? 70))%N then Some (n - 55)%N
  else None.

(** The bytes of a text of hexadecimal digits; [None] for an odd length or
    a character that is no digit. *)
Fixpoint unhexlify (s : string) : option (list byte) :=
  match s with
  | EmptyString => Some []
  | String _ EmptyString => None
  | String a (String b s') =>
      match hex_value a, hex_value b, unhexlify s' with
      | Some x, Some y, Some l =>
          match Byte.of_N (16 * x + y) with
          | Some v => Some (v :: l)
          | None => None
          end
      | _, _, _ => None
      end
  end.

(** [horus_v1_unencoded] and [horus_v1_encoded], as the script writes
    them. *)
Definition horus_v1_unencoded : string :=
  "000900071E2A000000000000000000000000259A6B14".

Definition horus_v1_encoded : string :=
  "2424C06B300D0415C5DBD332EFD7C190D7AF7F3C2891DE9F4BA1EB2B437BE1E2D8419D3DC9E44FDF78DAA07A98".

(** The process and what the script has printed, oldest line first. *)
Record world : Type := { w_proc : proc; w_stdout : list string }.

Definition Script (A : Type) : Type := world -> result A * world.

Definition sret {A} (a : A) : Script A := fun w => (Ok a, w).

Definition sraise {A} (e : pyexc) : Script A := fun w => (Raise e, w).

Definition sbind {A B} (m : Script A) (k : A -> Script B) : Script B :=
  fun w =>
    match m w with
    | (Ok a, w') => k a w'
    | (Raise e, w') => (Raise e, w')
    end.

(** A call into the module, made by the script. *)
Definition lift {A} (m : M A) : Script A :=
  fun w =>
    let '(r, s') := m (w_proc w) in
    (r, {| w_proc := s'; w_stdout := w_stdout w |}).

(** [print(line)] *)
Definition print (line : string) : Script unit :=
  fun w => (Ok tt, {| w_proc := w_proc w; w_stdout := w_stdout w ++ [line] |}).

(** [codecs.decode(text, 'hex')] *)
Definition codecs_decode_hex (text : string) : Script (list byte) :=
  match unhexlify text with
  | Some l => sret l
  | None => sraise (ValueError "decoding with 'hex' codec failed")
  end.

(** [codecs.encode(v, 'hex').decode().upper()] *)
Definition codecs_encode_hex_upper (v : pyval) : Script string :=
  match v with
  | PyBytes l | PyByteArray l => sret (upper (hexlify l))
  | _ => sraise (TypeError "encoding with 'hex' codec failed")
  end.

(** [(a, b) = v]: unpacking into two names (the messages are shortened). *)
Definition unpack_pair (v : pyval) : Script (pyval * pyval) :=
  match v with
  | PyTuple [a; b] | PyList [a; b] => sret (a, b)
  | PyTuple _ | PyList _ => sraise (ValueError "wrong number of values to unpack")
  | PyBytes [a; b] | PyByteArray [a; b] =>
      sret (PyInt (Z_of_byte a), PyInt (Z_of_byte b))
  | PyBytes _ | PyByteArray _ =>
      sraise (ValueError "wrong number of values to unpack")
  | PyStr (String a (String b EmptyString)) =>
      sret (PyStr (String a EmptyString), PyStr (String b EmptyString))
  | PyStr _ => sraise (ValueError "wrong number of values to unpack")
  | _ => sraise (TypeError "cannot unpack non-iterable object")
  end.

Declare Scope script_scope.
Delimit Scope script_scope with script.
Notation "x <- m ;; k" := (sbind m (fun x => k))
  (at level 100, m at next level, right associativity) : script_scope.
Notation "' p <- m ;; k" := (sbind m (fun p => k))
  (at level 100, p pattern, m at next level, right associativity)
  : script_scope.

Section Main.

Variable sys_platform : string.
Variable os_path_join : string -> string -> string.
Variable LoadLibrary : string -> option SharedObject.

(** The block under [if __name__ == "__main__":]. *)
Definition main : Script unit :=
  (e <- lift (Encoder_init sys_platform os_path_join LoadLibrary "") ;;
   n1 <- lift (get_num_tx_data_bytes e 22) ;;
   _ <- print ("Horus v1: 22 bytes in, " ++ str_of_int n1 ++ " bytes out.") ;;
   n2 <- lift (get_num_tx_data_bytes e 32) ;;
   _ <- print ("Horus v2: 32 bytes in, " ++ str_of_int n2 ++ " bytes out.") ;;
   _ <- print "Encoder Tests: " ;;
   _ <- print ("  Horus v1 Input:  " ++ horus_v1_unencoded) ;;
   unencoded_bytes <- codecs_decode_hex horus_v1_unencoded ;;
   r <- lift (horus_l2_encode_packet e (PyBytes unencoded_bytes)) ;;
   ' (_encoded, _num_bytes) <- unpack_pair r ;;
   out1 <- codecs_encode_hex_upper _encoded ;;
   _ <- print ("  Horus v1 Output: " ++ out1) ;;
   _ <- print "Decoder Tests:" ;;
   _ <- print ("  Horus v1 Input:  " ++ horus_v1_encoded) ;;
   encoded_bytes <- codecs_decode_hex horus_v1_encoded ;;
   _decoded <- lift (horus_l2_decode_packet e (PyBytes encoded_bytes)
                                            (PyInt 22)) ;;
   out2 <- codecs_encode_hex_upper _decoded ;;
   print ("  Horus v1 Output: " ++ out2))%script%string.

End Main.

(** * Properties *)

(** ** Arrays filled by native code *)

Lemma stored_length (src dst : list byte) :
  length (stored src dst) = length dst.
Proof.
  unfold stored.
  rewrite length_app, length_firstn, length_skipn. lia.
Qed.

Lemma stored_exact (src dst : list byte) :
  length src = length dst -> stored src dst = src.
Proof.
  intros H. unfold stored.
  rewrite <- H, firstn_all, skipn_all2 by lia.
  apply app_nil_r.
Qed.

Lemma c_ubyte_array_nonneg (z : Z) (s : proc) :
  0 <= z -> c_ubyte_array (PyInt z) s = (Ok (repeat zero_byte (Z.to_nat z)), s).
Proof.
  intros H. unfold c_ubyte_array. simpl.
  destruct (Z.ltb_spec z 0); [lia | reflexivity].
Qed.

Lemma len_repeat_zero (z : Z) :
  0 <= z -> len (repeat zero_byte (Z.to_nat z)) = z.
Proof.
  intros H. unfold len. rewrite repeat_length. lia.
Qed.

(** ** The decoder binding on [bytes] input *)

(** Bounds on sizes, with the constants written out. *)
Ltac size_bounds := unfold INT_MAX, PY_SSIZE_T_MAX in *; lia.

Lemma c_int_of_small (z : Z) : - 2 ^ 31 <= z <= INT_MAX -> c_int_of z = z.
Proof.
  intros H. unfold c_int_of. rewrite Z.mod_small by size_bounds. lia.
Qed.

Lemma c_int_of_range (z : Z) : - 2 ^ 31 <= c_int_of z <= INT_MAX.
Proof.
  unfold c_int_of, INT_MAX.
  pose proof (Z.mod_pos_bound (z + 2 ^ 31) (2 ^ 32)). lia.
Qed.

Lemma as_ssize_t_fits (z : Z) (s : proc) :
  - 2 ^ 63 <= z <= PY_SSIZE_T_MAX -> as_ssize_t (PyInt z) s = (Ok z, s).
Proof.
  intros H. unfold as_ssize_t. cbn [index_of].
  rewrite (proj2 (Z.ltb_ge z (- 2 ^ 63))) by lia.
  rewrite (proj2 (Z.ltb_ge PY_SSIZE_T_MAX z)) by lia.
  reflexivity.
Qed.

Lemma as_ssize_t_overflow (z : Z) (s : proc) :
  z < - 2 ^ 63 \/ PY_SSIZE_T_MAX < z ->
  as_ssize_t (PyInt z) s =
    (Raise (OverflowError "cannot fit 'int' into an index-sized integer"), s).
Proof.
  intros H. unfold as_ssize_t. cbn [index_of].
  destruct H as [H | H].
  - rewrite (proj2 (Z.ltb_lt z (- 2 ^ 63))) by lia. reflexivity.
  - rewrite (proj2 (Z.ltb_lt PY_SSIZE_T_MAX z)) by lia.
    rewrite orb_true_r. reflexivity.
Qed.

Lemma c_int_arg_window (z : Z) (s : proc) :
  - 2 ^ 63 <= z < 2 ^ 64 -> c_int_arg (PyInt z) s = (Ok (c_int_of z), s).
Proof.
  intros H. unfold c_int_arg. cbn [index_of].
  rewrite (proj2 (Z.ltb_ge z (- 2 ^ 63))) by lia.
  rewrite (proj2 (Z.leb_gt (2 ^ 64) z)) by lia.
  reflexivity.
Qed.

Lemma c_int_arg_small (z : Z) (s : proc) :
  - 2 ^ 31 <= z <= INT_MAX -> c_int_arg (PyInt z) s = (Ok z, s).
Proof.
  intros H. rewrite c_int_arg_window by size_bounds.
  now rewrite c_int_of_small.
Qed.

(** With a [bytes] packet and an integer size from 0 to [INT_MAX], the
    decoder binding makes one native call with the packet as it is and
    returns the array the native code filled. *)
Lemma decode_packet_bytes (self : Encoder) (packet : list byte) (n : Z)
    (s : proc) :
  0 <= n <= INT_MAX ->
  horus_l2_decode_packet self (PyBytes packet) (PyInt n) s =
    (Ok (PyBytes (stored (horus_l2_decode_rx_packet (c_lib self) packet n)
                         (repeat zero_byte (Z.to_nat n)))),
     {| calls := calls s ++ [CallDecodeRxPacket packet n] |}).
Proof.
  intros H. unfold horus_l2_decode_packet, bind.
  cbn [type_of pytype_eqb negb bytes_of from_buffer_copy].
  rewrite as_ssize_t_fits by size_bounds.
  rewrite c_ubyte_array_nonneg by lia.
  rewrite c_int_arg_small by size_bounds.
  reflexivity.
Qed.

(** What the decoder binding returns on [bytes] is a [bytes] object: an
    equation that gives it another shape is absurd. *)
Ltac decode_shape_absurd H :=
  rewrite decode_packet_bytes in H by size_bounds; discriminate H.

Lemma len_stored_zero (src : list byte) (n : Z) :
  0 <= n -> len (stored src (repeat zero_byte (Z.to_nat n))) = n.
Proof.
  intros H. unfold len. rewrite stored_length. now apply len_repeat_zero.
Qed.

(** With a [bytes] packet whose native size is non-negative, the encoder
    binding asks for the size, then encodes, and returns the filled array
    with the count the native encoder returned. *)
Lemma encode_packet_bytes (self : Encoder) (packet : list byte) (s : proc) :
  let n := horus_l2_get_num_tx_data_bytes (c_lib self) (len packet) in
  let r := horus_l2_encode_tx_packet (c_lib self) packet (len packet) in
  0 <= n ->
  horus_l2_encode_packet self (PyBytes packet) s =
    (Ok (PyTuple [PyBytes (stored (fst r) (repeat zero_byte (Z.to_nat n)));
                  PyInt (snd r)]),
     {| calls := (calls s ++ [CallGetNumTxDataBytes (len packet)])
                 ++ [CallEncodeTxPacket packet (len packet)] |}).
Proof.
  intros n r H.
  unfold horus_l2_encode_packet, bind, get_num_tx_data_bytes, native,
    from_buffer_copy.
  simpl. fold n. rewrite c_ubyte_array_nonneg by assumption.
  subst r. destruct (horus_l2_encode_tx_packet _ _ _) as [written k].
  reflexivity.
Qed.

(** The only way the encoder binding fails on [bytes]: a native size that
    is no array length. *)
Lemma encode_packet_negative_size (self : Encoder) (packet : list byte)
    (s : proc) :
  horus_l2_get_num_tx_data_bytes (c_lib self) (len packet) < 0 ->
  horus_l2_encode_packet self (PyBytes packet) s =
    (Raise (ValueError "Array length must be >= 0"),
     {| calls := calls s ++ [CallGetNumTxDataBytes (len packet)] |}).
Proof.
  intros H.
  unfold horus_l2_encode_packet, bind, get_num_tx_data_bytes, native,
    c_ubyte_array.
  simpl. destruct (Z.ltb_spec
    (horus_l2_get_num_tx_data_bytes (c_lib self) (len packet)) 0);
    [reflexivity | lia].
Qed.

(** ** C3: input that is not [bytes] *)

(** C3.  For every input whose type is not [bytes], [horus_l2_encode_packet]
    raises the module's [TypeError], and so does [horus_l2_decode_packet]
    for every such frame, whatever the payload size passed (22 included).
    The exception is raised before any array is made and before any native
    call: the process is left as it was, nothing is coerced. *)
Theorem non_bytes_input_rejected (self : Encoder) (v n : pyval) (s : proc) :
  type_of v <> TBytes ->
  horus_l2_encode_packet self v s =
    (Raise (TypeError "Input to encode_packet must be bytes!"), s)
  /\ horus_l2_decode_packet self v n s =
    (Raise (TypeError "Input to encode_packet must be bytes!"), s).
Proof.
  intros H.
  unfold horus_l2_encode_packet, horus_l2_decode_packet.
  destruct v; try (repeat split; reflexivity).
  exfalso. apply H. reflexivity.
Qed.

Lemma non_bytes_input_rejected_witness :
  horus_l2_encode_packet (encoder_of libhorus) (PyStr "not bytes") initial =
    (Raise (TypeError "Input to encode_packet must be bytes!"), initial)
  /\ horus_l2_decode_packet (encoder_of libhorus) (PyStr "not bytes")
       (PyInt 22) initial =
    (Raise (TypeError "Input to encode_packet must be bytes!"), initial).
Proof.
  destruct (non_bytes_input_rejected (encoder_of libhorus)
              (PyStr "not bytes") (PyInt 22) initial) as [He Hd].
  - discriminate.
  - split; assumption.
Defined.

(** ** C10, C2, C4, C7: what the decoder binding returns *)

(** C10, as the code has it.  For every [bytes] packet, of any length and
    with any first bytes, and every positive integer [num_payload_bytes]
    that is a C [int] (at most [2^31 - 1]), the decoder binding returns a
    [bytes] object of exactly [num_payload_bytes] bytes and does not raise.
    It does not look at the packet: the packet goes to the native decoder
    unchanged and the result is the zero-filled array as the native decoder
    left it. *)
Theorem decode_returns_requested_length (self : Encoder)
    (packet : list byte) (num_payload_bytes : Z) (s : proc) :
  0 < num_payload_bytes <= INT_MAX ->
  exists payload,
    horus_l2_decode_packet self (PyBytes packet) (PyInt num_payload_bytes) s =
      (Ok (PyBytes payload),
       {| calls := calls s ++ [CallDecodeRxPacket packet num_payload_bytes] |})
    /\ len payload = num_payload_bytes
    /\ payload =
         stored (horus_l2_decode_rx_packet (c_lib self) packet
                                           num_payload_bytes)
                (repeat zero_byte (Z.to_nat num_payload_bytes)).
Proof.
  intros H. eexists. split; [apply decode_packet_bytes; size_bounds |].
  split; [apply len_stored_zero; lia | reflexivity].
Qed.

Lemma decode_returns_requested_length_witness :
  exists payload,
    horus_l2_decode_packet (encoder_of libhorus) (PyBytes [x00; x01; x02])
                           (PyInt 5) initial =
      (Ok (PyBytes payload),
       {| calls := [CallDecodeRxPacket [x00; x01; x02] 5] |})
    /\ len payload = 5.
Proof.
  destruct (decode_returns_requested_length (encoder_of libhorus)
              [x00; x01; x02] 5 initial) as [payload [H1 [H2 _]]].
  - unfold INT_MAX. lia.
  - exists payload. split; assumption.
Defined.

(** A size that does not fit [Py_ssize_t] stops the decoder binding when it
    builds the array type, before any native call. *)
Lemma decode_oversized_len (self : Encoder) (rx : list byte) (n : Z)
    (s : proc) :
  n < - 2 ^ 63 \/ PY_SSIZE_T_MAX < n ->
  horus_l2_decode_packet self (PyBytes rx) (PyInt n) s =
    (Raise (OverflowError "cannot fit 'int' into an index-sized integer"), s).
Proof.
  intros H. unfold horus_l2_decode_packet, bind.
  cbn [type_of pytype_eqb negb bytes_of from_buffer_copy].
  rewrite as_ssize_t_overflow by exact H. reflexivity.
Qed.

(** C10 as stated fails: with the positive size [2^64] the decoder binding
    raises, and returns no [bytes] object. *)
Lemma decode_raises_on_oversized_len :
  horus_l2_decode_packet (encoder_of libhorus) (PyBytes [x00; x01; x02])
                         (PyInt (2 ^ 64)) initial =
    (Raise (OverflowError "cannot fit 'int' into an index-sized integer"),
     initial)
  /\ ~ (exists payload s',
          horus_l2_decode_packet (encoder_of libhorus)
            (PyBytes [x00; x01; x02]) (PyInt (2 ^ 64)) initial =
          (Ok (PyBytes payload), s')).
Proof.
  assert (H : horus_l2_decode_packet (encoder_of libhorus)
                (PyBytes [x00; x01; x02]) (PyInt (2 ^ 64)) initial =
              (Raise (OverflowError
                        "cannot fit 'int' into an index-sized integer"),
               initial))
    by (apply decode_oversized_len; right; unfold PY_SSIZE_T_MAX; lia).
  split; [exact H |].
  intros (payload & s' & H'). rewrite H in H'. discriminate H'.
Qed.

(** C2, as the code has it.  For every [bytes] frame and a supported payload
    size (22 or 32), the decoder binding does not raise and returns one
    [bytes] object of that size, the payload as the native decoder left it.
    The result carries no checksum flag and no error counts. *)
Theorem decode_supported_len_returns_bytes (self : Encoder)
    (rx : list byte) (n : Z) (s : proc) :
  n = 22 \/ n = 32 ->
  exists payload,
    horus_l2_decode_packet self (PyBytes rx) (PyInt n) s =
      (Ok (PyBytes payload),
       {| calls := calls s ++ [CallDecodeRxPacket rx n] |})
    /\ len payload = n.
Proof.
  intros H. eexists. split; [apply decode_packet_bytes; size_bounds |].
  apply len_stored_zero; lia.
Qed.

Lemma decode_supported_len_returns_bytes_witness :
  exists payload,
    horus_l2_decode_packet (encoder_of libhorus)
      (PyBytes (unique_word ++ repeat xff 46)) (PyInt 22) initial =
      (Ok (PyBytes payload),
       {| calls := [CallDecodeRxPacket (unique_word ++ repeat xff 46) 22] |})
    /\ len payload = 22.
Proof.
  apply (decode_supported_len_returns_bytes (encoder_of libhorus)
           (unique_word ++ repeat xff 46) 22 initial).
  left. reflexivity.
Defined.

(** C2 as stated fails: decoding a damaged frame with size 22 does not
    return a triple of payload, checksum flag and error counts. *)
Lemma decode_result_is_not_a_triple :
  ~ (exists payload checksum_ok error_counts s',
       horus_l2_decode_packet (encoder_of libhorus)
         (PyBytes (unique_word ++ repeat xff 46)) (PyInt 22) initial =
       (Ok (PyTuple [PyBytes payload; PyBool checksum_ok; error_counts]), s')).
Proof.
  intros (payload & ok & errs & s' & H).
  decode_shape_absurd H.
Qed.

(** C4, as the code has it.  The decoder binding does not check the payload
    size against the protocol sizes.  On a [bytes] frame it raises, before
    any native call, [TypeError] when the size is not an integer,
    [OverflowError] when it does not fit [Py_ssize_t] and [ValueError] when
    it is negative; every integer size from 0 to [2^31 - 1], 22 and 32 or
    not, zero included, is accepted and gives [bytes] of that size. *)
Theorem decode_payload_len_contract (self : Encoder) (rx : list byte)
    (num_payload_bytes : pyval) (s : proc) :
  (index_of num_payload_bytes = None ->
   horus_l2_decode_packet self (PyBytes rx) num_payload_bytes s =
     (Raise (TypeError "can't multiply sequence by non-int"), s))
  /\ (forall n, index_of num_payload_bytes = Some n ->
       n < - 2 ^ 63 \/ PY_SSIZE_T_MAX < n ->
       horus_l2_decode_packet self (PyBytes rx) num_payload_bytes s =
         (Raise (OverflowError
                   "cannot fit 'int' into an index-sized integer"), s))
  /\ (forall n, index_of num_payload_bytes = Some n ->
       - 2 ^ 63 <= n < 0 ->
       horus_l2_decode_packet self (PyBytes rx) num_payload_bytes s =
         (Raise (ValueError "Array length must be >= 0"), s))
  /\ (forall n, index_of num_payload_bytes = Some n ->
       0 <= n <= INT_MAX ->
       exists payload,
         horus_l2_decode_packet self (PyBytes rx) num_payload_bytes s =
           (Ok (PyBytes payload),
            {| calls := calls s ++ [CallDecodeRxPacket rx n] |})
         /\ len payload = n).
Proof.
  unfold horus_l2_decode_packet, bind, as_ssize_t, c_int_arg.
  cbn [type_of pytype_eqb negb bytes_of from_buffer_copy].
  split; [| split; [| split]].
  - intros ->. reflexivity.
  - intros n -> [H | H].
    + rewrite (proj2 (Z.ltb_lt n (- 2 ^ 63))) by lia. reflexivity.
    + rewrite (proj2 (Z.ltb_lt PY_SSIZE_T_MAX n)) by lia.
      rewrite orb_true_r. reflexivity.
  - intros n -> H.
    rewrite (proj2 (Z.ltb_ge n (- 2 ^ 63))) by lia.
    rewrite (proj2 (Z.ltb_ge PY_SSIZE_T_MAX n)) by size_bounds.
    cbn [orb ret]. unfold c_ubyte_array. cbn [index_of].
    rewrite (proj2 (Z.ltb_lt n 0)) by lia. reflexivity.
  - intros n -> H.
    rewrite (proj2 (Z.ltb_ge n (- 2 ^ 63))) by lia.
    rewrite (proj2 (Z.ltb_ge PY_SSIZE_T_MAX n)) by size_bounds.
    cbn [orb ret]. rewrite c_ubyte_array_nonneg by lia.
    rewrite (proj2 (Z.leb_gt (2 ^ 64) n)) by size_bounds.
    cbn [orb ret native]. rewrite c_int_of_small by size_bounds.
    eexists. split; [reflexivity |]. apply len_stored_zero. lia.
Qed.

Lemma decode_payload_len_contract_witness :
  horus_l2_decode_packet (encoder_of libhorus)
    (PyBytes horus_v1_encoded_bytes) (PyStr "22") initial =
    (Raise (TypeError "can't multiply sequence by non-int"), initial)
  /\ horus_l2_decode_packet (encoder_of libhorus)
       (PyBytes horus_v1_encoded_bytes) (PyInt (2 ^ 64)) initial =
     (Raise (OverflowError "cannot fit 'int' into an index-sized integer"),
      initial)
  /\ horus_l2_decode_packet (encoder_of libhorus)
       (PyBytes horus_v1_encoded_bytes) (PyInt (-1)) initial =
     (Raise (ValueError "Array length must be >= 0"), initial)
  /\ exists payload,
       horus_l2_decode_packet (encoder_of libhorus)
         (PyBytes horus_v1_encoded_bytes) (PyInt 0) initial =
         (Ok (PyBytes payload),
          {| calls := [CallDecodeRxPacket horus_v1_encoded_bytes 0] |})
       /\ len payload = 0.
Proof.
  split; [| split; [| split]].
  - apply (proj1 (decode_payload_len_contract (encoder_of libhorus)
                    horus_v1_encoded_bytes (PyStr "22") initial)).
    reflexivity.
  - apply (proj1 (proj2 (decode_payload_len_contract (encoder_of libhorus)
                    horus_v1_encoded_bytes (PyInt (2 ^ 64)) initial))
             (2 ^ 64)); [reflexivity |].
    right. unfold PY_SSIZE_T_MAX. lia.
  - apply (proj1 (proj2 (proj2 (decode_payload_len_contract
                    (encoder_of libhorus) horus_v1_encoded_bytes
                    (PyInt (-1)) initial))) (-1)); [reflexivity | lia].
  - apply (proj2 (proj2 (proj2 (decode_payload_len_contract
                    (encoder_of libhorus) horus_v1_encoded_bytes
                    (PyInt 0) initial))) 0); [reflexivity |].
    unfold INT_MAX. lia.
Defined.

(** C4 as stated fails: size 10 is not a protocol size, and the call does
    not fail. *)
Lemma decode_accepts_unsupported_len :
  ~ (exists e s',
       horus_l2_decode_packet (encoder_of libhorus)
         (PyBytes horus_v1_encoded_bytes) (PyInt 10) initial = (Raise e, s')).
Proof.
  intros (e & s' & H).
  decode_shape_absurd H.
Qed.

(** C7, as the code has it.  The sample frame starts with the unique word,
    so the framer and the decoder of the native library find it [Synced],
    whatever the protocol constants; decoded with
    size 22, the binding does not raise and returns exactly 22 bytes, as one
    [bytes] object, whatever the native library is.  The binding itself
    reports neither the sync state, nor a checksum flag, nor error counts. *)
Theorem sample_frame_decodes_to_22_bytes :
  firstn 2 horus_v1_encoded_bytes = unique_word
  /\ fst (deframe horus_v1_encoded_bytes) = Synced
  /\ (forall cd : Codec,
        rx_sync (decode_frame cd horus_v1_encoded_bytes 22) = Synced)
  /\ forall (self : Encoder) (s : proc),
       exists payload,
         horus_l2_decode_packet self (PyBytes horus_v1_encoded_bytes)
                                (PyInt 22) s =
           (Ok (PyBytes payload),
            {| calls := calls s
                 ++ [CallDecodeRxPacket horus_v1_encoded_bytes 22] |})
         /\ length payload = 22%nat.
Proof.
  split; [reflexivity |]. split; [reflexivity |].
  split; [intros cd; reflexivity |].
  intros self s. eexists. split; [apply decode_packet_bytes; size_bounds |].
  rewrite stored_length, repeat_length. reflexivity.
Qed.

(** C7 as stated fails: decoding the sample frame reports no checksum flag
    and no error counts. *)
Lemma sample_frame_reports_no_status :
  ~ (exists payload checksum_ok error_counts s',
       horus_l2_decode_packet (encoder_of libhorus)
         (PyBytes horus_v1_encoded_bytes) (PyInt 22) initial =
       (Ok (PyTuple [PyBytes payload; PyBool checksum_ok; error_counts]), s')).
Proof.
  intros (payload & ok & errs & s' & H).
  decode_shape_absurd H.
Qed.

(** ** C5, C9: what the encoder binding returns *)

(** C5, as the code has it.  For every [bytes] payload the encoder binding
    returns a pair: the complete transmit buffer, as one [bytes] object, and
    the integer the native encoder returned. *)
Theorem encode_returns_buffer_and_count (self : Encoder)
    (packet : list byte) (s : proc) :
  0 <= horus_l2_get_num_tx_data_bytes (c_lib self) (len packet) ->
  exists tx s',
    horus_l2_encode_packet self (PyBytes packet) s =
      (Ok (PyTuple
             [PyBytes tx;
              PyInt (snd (horus_l2_encode_tx_packet (c_lib self) packet
                                                    (len packet)))]), s')
    /\ tx = stored
              (fst (horus_l2_encode_tx_packet (c_lib self) packet
                                              (len packet)))
              (repeat zero_byte
                 (Z.to_nat (horus_l2_get_num_tx_data_bytes (c_lib self)
                                                           (len packet)))).
Proof.
  intros H. do 2 eexists. split; [| reflexivity].
  apply encode_packet_bytes. assumption.
Qed.

Lemma encode_returns_buffer_and_count_witness :
  exists tx s',
    horus_l2_encode_packet (encoder_of libhorus)
      (PyBytes horus_v1_unencoded_bytes) initial =
      (Ok (PyTuple [PyBytes tx; PyInt 48]), s').
Proof.
  destruct (encode_returns_buffer_and_count (encoder_of libhorus)
              horus_v1_unencoded_bytes initial) as (tx & s' & H & _).
  - vm_compute. discriminate.
  - exists tx, s'. exact H.
Defined.

(** C5 as stated fails: the result of encoding the sample payload is not a
    single [bytes] object. *)
Lemma encode_result_is_not_bytes :
  ~ (exists tx s',
       horus_l2_encode_packet (encoder_of libhorus)
         (PyBytes horus_v1_unencoded_bytes) initial = (Ok (PyBytes tx), s')).
Proof.
  intros (tx & s' & H).
  rewrite encode_packet_bytes in H by (vm_compute; discriminate).
  discriminate H.
Qed.

(** C9.  For every [bytes] packet, the buffer the encoder binding returns
    first has exactly [get_num_tx_data_bytes(len(packet))] bytes. *)
Theorem encoded_length_is_num_tx_data_bytes (self : Encoder)
    (packet : list byte) (s : proc) :
  0 <= horus_l2_get_num_tx_data_bytes (c_lib self) (len packet) ->
  exists tx k s1,
    horus_l2_encode_packet self (PyBytes packet) s =
      (Ok (PyTuple [PyBytes tx; PyInt k]), s1)
    /\ forall s2,
         fst (get_num_tx_data_bytes self (len packet) s2) = Ok (len tx).
Proof.
  intros H. do 3 eexists. split; [apply encode_packet_bytes; assumption |].
  intros s2. simpl. rewrite len_stored_zero by assumption. reflexivity.
Qed.

Lemma encoded_length_is_num_tx_data_bytes_witness :
  exists tx k s1,
    horus_l2_encode_packet (encoder_of libhorus)
      (PyBytes horus_v1_unencoded_bytes) initial =
      (Ok (PyTuple [PyBytes tx; PyInt k]), s1)
    /\ forall s2,
         fst (get_num_tx_data_bytes (encoder_of libhorus)
                (len horus_v1_unencoded_bytes) s2) = Ok (len tx).
Proof.
  apply (encoded_length_is_num_tx_data_bytes (encoder_of libhorus)
           horus_v1_unencoded_bytes initial).
  vm_compute. discriminate.
Defined.

(** ** C6: the transmit size *)

Lemma cdiv_le_mono (a b c : Z) : 0 < c -> a <= b -> cdiv a c <= cdiv b c.
Proof.
  intros Hc Hab. unfold cdiv. apply Z.div_le_mono; lia.
Qed.

Lemma transmit_size_le_mono (n m : Z) :
  n <= m -> transmit_size n <= transmit_size m.
Proof.
  intros H.
  unfold transmit_size, get_transmit_size, encoded_bit_count, num_codewords,
    checksum_bits.
  apply Z.add_le_mono_l, cdiv_le_mono; [lia |].
  apply Z.mul_le_mono_nonneg_r; [lia |].
  apply cdiv_le_mono; lia.
Qed.

Lemma cdiv_nonneg (a b : Z) : 0 < b -> 0 <= a -> 0 <= cdiv a b.
Proof.
  intros Hb Ha. unfold cdiv. apply Z.div_pos; lia.
Qed.

Lemma num_codewords_nonneg (n : Z) : 0 <= n -> 0 <= num_codewords n.
Proof.
  intros H. unfold num_codewords, checksum_bits. apply cdiv_nonneg; lia.
Qed.

Lemma transmit_size_nonneg (n : Z) : 0 <= n -> 0 <= transmit_size n.
Proof.
  intros H. unfold transmit_size, get_transmit_size, encoded_bit_count.
  pose proof (num_codewords_nonneg n H).
  pose proof (cdiv_nonneg (num_codewords n * 23) 8). lia.
Qed.

(** A size query of a caller: the argument is refused when it fits neither
    [unsigned long] nor [long]; otherwise the native code gets its 32 low
    bits and the answer comes back as a C [int]. *)
Lemma get_num_call_window (self : Encoder) (k : Z) (s : proc) :
  - 2 ^ 63 <= k < 2 ^ 64 ->
  get_num_tx_data_bytes_call self k s =
    (Ok (c_int_of (horus_l2_get_num_tx_data_bytes (c_lib self) (c_int_of k))),
     {| calls := calls s ++ [CallGetNumTxDataBytes (c_int_of k)] |}).
Proof.
  intros H. unfold get_num_tx_data_bytes_call, bind.
  rewrite c_int_arg_window by exact H. reflexivity.
Qed.

Lemma get_num_call_refused (self : Encoder) (k : Z) (s : proc) :
  k < - 2 ^ 63 \/ 2 ^ 64 <= k ->
  get_num_tx_data_bytes_call self k s =
    (Raise (ArgumentError "int too long to convert"), s).
Proof.
  intros H. unfold get_num_tx_data_bytes_call, bind, c_int_arg.
  cbn [index_of]. destruct H as [H | H].
  - rewrite (proj2 (Z.ltb_lt k (- 2 ^ 63))) by lia. reflexivity.
  - rewrite (proj2 (Z.leb_le (2 ^ 64) k)) by lia.
    rewrite orb_true_r. reflexivity.
Qed.

Lemma transmit_size_fits_c_int (n : Z) :
  0 <= n <= 2 ^ 30 -> - 2 ^ 31 <= transmit_size n <= INT_MAX.
Proof.
  intros H.
  pose proof (transmit_size_nonneg n (proj1 H)).
  pose proof (transmit_size_le_mono n (2 ^ 30) (proj2 H)) as Hle.
  assert (Htop : transmit_size (2 ^ 30) <= INT_MAX)
    by (vm_compute; discriminate).
  lia.
Qed.

(** C6, as the code has it.  For payload sizes from 0 to [2^30], with the
    native size function of the specification: [get_num_tx_data_bytes]
    answers the same value on every call, whatever the process has done
    before, and that value depends only on the C [int] its argument is cut
    to; the answer does not decrease when the size grows; and the call makes
    one native call, the size query, and no encode. *)
Theorem transmit_size_deterministic_monotonic (cd : Codec) (n m : Z)
    (s s' : proc) :
  0 <= n <= m ->
  m <= 2 ^ 30 ->
  let self := encoder_of (horus_lib cd) in
  fst (get_num_tx_data_bytes_call self n s)
  = fst (get_num_tx_data_bytes_call self n s')
  /\ (forall k, - 2 ^ 63 <= k < 2 ^ 64 -> c_int_of k = n ->
        fst (get_num_tx_data_bytes_call self k s')
        = fst (get_num_tx_data_bytes_call self n s))
  /\ (exists a b,
        fst (get_num_tx_data_bytes_call self n s) = Ok a
        /\ fst (get_num_tx_data_bytes_call self m s') = Ok b
        /\ a <= b)
  /\ calls (snd (get_num_tx_data_bytes_call self n s)) =
       calls s ++ [CallGetNumTxDataBytes n]
  /\ filter is_encode (calls (snd (get_num_tx_data_bytes_call self n s))) =
       filter is_encode (calls s).
Proof.
  intros Hnm Hm self.
  assert (Hn : c_int_of n = n) by (apply c_int_of_small; size_bounds).
  assert (Hm' : c_int_of m = m) by (apply c_int_of_small; size_bounds).
  assert (Hcall : forall k t, - 2 ^ 63 <= k < 2 ^ 64 -> c_int_of k = n ->
            get_num_tx_data_bytes_call self k t =
              (Ok (transmit_size n),
               {| calls := calls t ++ [CallGetNumTxDataBytes n] |})).
  { intros k t Hk Hkn. rewrite get_num_call_window by exact Hk.
    rewrite Hkn. cbn [self encoder_of c_lib horus_lib
                      horus_l2_get_num_tx_data_bytes].
    rewrite c_int_of_small by (apply transmit_size_fits_c_int; lia).
    reflexivity. }
  assert (Hwin : - 2 ^ 63 <= n < 2 ^ 64) by lia.
  split; [now rewrite !Hcall by assumption |].
  split; [intros k Hk Hkn; now rewrite !Hcall by assumption |].
  split.
  - exists (transmit_size n), (transmit_size m).
    split; [now rewrite Hcall by assumption |]. split.
    + rewrite get_num_call_window by lia. rewrite Hm'.
      cbn [self encoder_of c_lib horus_lib horus_l2_get_num_tx_data_bytes
           fst].
      rewrite c_int_of_small by (apply transmit_size_fits_c_int; lia).
      reflexivity.
    + apply transmit_size_le_mono. lia.
  - rewrite Hcall by assumption. cbn [snd calls].
    split; [reflexivity |]. rewrite filter_app. apply app_nil_r.
Qed.

Lemma transmit_size_deterministic_monotonic_witness :
  fst (get_num_tx_data_bytes_call (encoder_of libhorus) 22 initial) = Ok 48
  /\ fst (get_num_tx_data_bytes_call (encoder_of libhorus) 32 initial) = Ok 69
  /\ exists a b,
       fst (get_num_tx_data_bytes_call (encoder_of libhorus) 22 initial)
       = Ok a
       /\ fst (get_num_tx_data_bytes_call (encoder_of libhorus) 32 initial)
          = Ok b
       /\ a <= b.
Proof.
  split; [reflexivity |]. split; [reflexivity |].
  destruct (transmit_size_deterministic_monotonic horus_codec 22 32
              initial initial) as (_ & _ & Hmono & _).
  - lia.
  - lia.
  - exact Hmono.
Defined.

(** C6 as stated fails: past the C [int] range the answer decreases, because
    the argument is cut to 32 bits: 69 for 32 bytes, 48 for [2^32 + 22]. *)
Lemma transmit_size_not_monotonic_past_c_int :
  ~ (forall n m a b,
       n <= m ->
       fst (get_num_tx_data_bytes_call (encoder_of libhorus) n initial) = Ok a ->
       fst (get_num_tx_data_bytes_call (encoder_of libhorus) m initial) = Ok b ->
       a <= b).
Proof.
  intros H.
  assert (H69 : fst (get_num_tx_data_bytes_call (encoder_of libhorus) 32
                       initial) = Ok 69) by reflexivity.
  assert (H48 : fst (get_num_tx_data_bytes_call (encoder_of libhorus)
                       (2 ^ 32 + 22) initial) = Ok 48)
    by (vm_compute; reflexivity).
  specialize (H 32 (2 ^ 32 + 22) 69 48 ltac:(lia) H69 H48). lia.
Qed.

(** ** C8: how often the native library is initialised *)

Lemma init_runs_snoc (l : list native_call) (c : native_call) :
  init_runs {| calls := l ++ [c] |} =
  (init_runs {| calls := l |} + (if is_init c then 1 else 0))%nat.
Proof.
  unfold init_runs. simpl. rewrite filter_app, length_app. simpl.
  destruct (is_init c); reflexivity.
Qed.

Lemma init_runs_eta (s : proc) : init_runs {| calls := calls s |} = init_runs s.
Proof. reflexivity. Qed.

(** The constructor succeeds or fails whatever the process has done; when
    it succeeds it has made one native call, the initialisation, and when it
    fails, none. *)
Lemma Encoder_init_state (sys_platform : string)
    (os_path_join : string -> string -> string)
    (LoadLibrary : string -> option SharedObject) (libpath : string)
    (s : proc) :
  Encoder_init sys_platform os_path_join LoadLibrary libpath s =
  match fst (Encoder_init sys_platform os_path_join LoadLibrary libpath
                          initial) with
  | Ok e => (Ok e, {| calls := calls s ++ [CallInit] |})
  | Raise x => (Raise x, s)
  end.
Proof.
  unfold Encoder_init.
  destruct (LoadLibrary _) as [so |]; [| reflexivity].
  unfold bind, symbol.
  repeat match goal with
         | |- context [existsb ?f (exports so)] =>
             destruct (existsb f (exports so)); [| reflexivity]
         end.
  reflexivity.
Qed.

(** The constructor fails with [OSError], when the library is not loaded, or
    with [AttributeError], when the library lacks an entry point. *)
Lemma Encoder_init_exceptions (sys_platform : string)
    (os_path_join : string -> string -> string)
    (LoadLibrary : string -> option SharedObject) (libpath : string)
    (s s1 : proc) (x : pyexc) :
  Encoder_init sys_platform os_path_join LoadLibrary libpath s = (Raise x, s1) ->
  s1 = s
  /\ ((exists path, x = OSError path)
      \/ (exists name, In name horus_exports /\ x = AttributeError name)).
Proof.
  unfold Encoder_init.
  destruct (LoadLibrary _) as [so |].
  - unfold bind, symbol, horus_exports.
    repeat match goal with
           | |- context [existsb ?f (exports so)] =>
               destruct (existsb f (exports so));
               [| intros H; injection H as <- <-; split; [reflexivity |];
                  right; eexists; split; [| reflexivity];
                  cbn [In]; tauto]
           end.
    intros H. discriminate H.
  - intros H. injection H as <- <-. split; [reflexivity |].
    left. eexists. reflexivity.
Qed.

(** A step runs [horus_l2_init] once when it is a constructor call that
    finds its library, and not at all otherwise. *)
Lemma init_runs_perform (sys_platform : string)
    (os_path_join : string -> string -> string)
    (LoadLibrary : string -> option SharedObject) (s : proc) (a : action) :
  init_runs (perform sys_platform os_path_join LoadLibrary s a) =
  (init_runs s
   + (if constructs sys_platform os_path_join LoadLibrary a
      then 1 else 0))%nat.
Proof.
  destruct a as [p | self n | self v | self v n | self].
  - unfold perform, constructs. rewrite Encoder_init_state.
    destruct (fst (Encoder_init _ _ _ _ initial)); cbn [snd].
    + rewrite init_runs_snoc, init_runs_eta. reflexivity.
    + lia.
  - unfold perform, constructs, get_num_tx_data_bytes, native. cbn [snd].
    rewrite init_runs_snoc, init_runs_eta. reflexivity.
  - unfold perform, constructs, horus_l2_encode_packet.
    destruct (negb _); simpl; [lia |].
    unfold bind, get_num_tx_data_bytes, native, c_ubyte_array. simpl.
    destruct (Z.ltb _ 0); simpl.
    + rewrite init_runs_snoc, init_runs_eta. reflexivity.
    + destruct (horus_l2_encode_tx_packet _ _ _). simpl.
      rewrite !init_runs_snoc, init_runs_eta. simpl. lia.
  - unfold perform, constructs, horus_l2_decode_packet.
    destruct (negb _); simpl; [lia |].
    unfold bind, as_ssize_t, c_ubyte_array, c_int_arg.
    destruct (index_of n) as [z |]; cbn [raise snd]; [| lia].
    destruct (_ || _); cbn [raise ret snd index_of]; [lia |].
    destruct (Z.ltb z 0); cbn [raise ret snd]; [lia |].
    destruct (_ || _); cbn [raise ret snd native]; [lia |].
    rewrite init_runs_snoc, init_runs_eta. reflexivity.
  - simpl. lia.
Qed.

(** C8, as the code has it.  [horus_l2_init] runs once in every constructor
    call that succeeds and nowhere else: after any sequence of steps it has
    run as many times as encoders were constructed.  No guard keeps it from
    running again. *)
Theorem init_runs_once_per_constructor (sys_platform : string)
    (os_path_join : string -> string -> string)
    (LoadLibrary : string -> option SharedObject)
    (acts : list action) (s : proc) :
  init_runs (run sys_platform os_path_join LoadLibrary acts s) =
  (init_runs s
   + constructions sys_platform os_path_join LoadLibrary acts)%nat.
Proof.
  revert s. unfold run, constructions.
  induction acts as [| a acts IH]; intros s; simpl.
  - lia.
  - rewrite IH, init_runs_perform.
    destruct (constructs _ _ _ a); simpl; lia.
Qed.

(** C8 as stated fails: a process that constructs two encoders has run the
    initialisation twice. *)
Lemma init_runs_again_on_second_encoder :
  init_runs (linux_run [New ""; New ""] initial) <> 1%nat.
Proof.
  vm_compute. discriminate.
Qed.

(** ** Bits, bytes and groups *)

Lemma length_bits_of_byte (b : byte) : length (bits_of_byte b) = 8%nat.
Proof.
  unfold bits_of_byte.
  destruct (Byte.to_bits b) as (b0 & b1 & b2 & b3 & b4 & b5 & b6 & b7).
  reflexivity.
Qed.

Lemma byte_of_bits_of_byte (b : byte) : byte_of_bits (bits_of_byte b) = b.
Proof.
  unfold bits_of_byte, byte_of_bits.
  destruct (Byte.to_bits b) as (b0 & b1 & b2 & b3 & b4 & b5 & b6 & b7) eqn:E.
  cbn [nth]. transitivity (Byte.of_bits (Byte.to_bits b)).
  - rewrite E. reflexivity.
  - apply Byte.of_bits_to_bits.
Qed.

Lemma bits_of_byte_of_bits (l : list bool) :
  length l = 8%nat -> bits_of_byte (byte_of_bits l) = l.
Proof.
  intros H.
  do 8 (destruct l as [| ? l]; [discriminate H |]).
  destruct l; [| discriminate H].
  unfold bits_of_byte, byte_of_bits. rewrite Byte.to_bits_of_bits.
  reflexivity.
Qed.

Lemma length_bits_of_bytes (l : list byte) :
  length (bits_of_bytes l) = (8 * length l)%nat.
Proof.
  unfold bits_of_bytes. induction l as [| b l IH]; simpl; [reflexivity |].
  rewrite length_app, length_bits_of_byte, IH. lia.
Qed.

Lemma length_bits_of_Z (w : nat) (z : Z) : length (bits_of_Z w z) = w.
Proof.
  induction w as [| w IH]; simpl; [reflexivity | now rewrite IH].
Qed.

Lemma Z_of_bits_range (l : list bool) :
  0 <= Z_of_bits l < 2 ^ Z.of_nat (length l).
Proof.
  induction l as [| b l IH]; simpl Z_of_bits; [simpl; lia |].
  replace (Z.of_nat (length (b :: l))) with (Z.succ (Z.of_nat (length l)))
    by (simpl length; lia).
  rewrite Z.pow_succ_r by lia.
  destruct b; lia.
Qed.

Lemma Z_of_bits_of_Z_mod (w : nat) (z : Z) :
  Z_of_bits (bits_of_Z w z) = z mod 2 ^ Z.of_nat w.
Proof.
  induction w as [| w IH].
  - simpl. now rewrite Z.mod_1_r.
  - simpl bits_of_Z. simpl Z_of_bits.
    rewrite length_bits_of_Z, IH.
    replace (Z.of_nat (S w)) with (Z.succ (Z.of_nat w)) by lia.
    rewrite Z.pow_succ_r, (Z.mul_comm 2) by lia.
    rewrite Z.rem_mul_r by lia.
    rewrite <- Z.testbit_spec' by lia.
    destruct (Z.testbit z (Z.of_nat w)); simpl Z.b2z; lia.
Qed.

Lemma Z_of_bits_of_Z (w : nat) (z : Z) :
  0 <= z < 2 ^ Z.of_nat w -> Z_of_bits (bits_of_Z w z) = z.
Proof.
  intros H. rewrite Z_of_bits_of_Z_mod. apply Z.mod_small. assumption.
Qed.

Lemma bits_of_Z_mod (w : nat) (z r : Z) :
  bits_of_Z w (r * 2 ^ Z.of_nat w + z) = bits_of_Z w z.
Proof.
  induction w as [| w IH] in r |- *; [reflexivity |].
  cbn [bits_of_Z].
  replace (Z.of_nat (S w)) with (Z.succ (Z.of_nat w)) by lia.
  rewrite Z.pow_succ_r by lia.
  replace (r * (2 * 2 ^ Z.of_nat w) + z)
    with ((r * 2) * 2 ^ Z.of_nat w + z) by lia.
  f_equal; [| apply IH].
  rewrite !Z.testbit_eqb by lia.
  rewrite (Z.add_comm _ z), Z.div_add by lia.
  rewrite Z.mod_add by lia. reflexivity.
Qed.

Lemma bits_of_Z_of_bits (l : list bool) :
  bits_of_Z (length l) (Z_of_bits l) = l.
Proof.
  induction l as [| b l IH]; [reflexivity |].
  simpl length. simpl bits_of_Z. simpl Z_of_bits.
  pose proof (Z_of_bits_range l) as R.
  f_equal.
  - rewrite Z.testbit_eqb by lia.
    destruct b.
    + replace (2 ^ Z.of_nat (length l) + Z_of_bits l)
        with (Z_of_bits l + 1 * 2 ^ Z.of_nat (length l)) by lia.
      rewrite Z.div_add, Z.div_small by lia. reflexivity.
    + rewrite Z.add_0_l, Z.div_small by lia. reflexivity.
  - destruct b.
    + replace (2 ^ Z.of_nat (length l) + Z_of_bits l)
        with (1 * 2 ^ Z.of_nat (length l) + Z_of_bits l) by lia.
      rewrite bits_of_Z_mod. exact IH.
    + rewrite Z.add_0_l. exact IH.
Qed.

Lemma length_resize (k : nat) (l : list bool) : length (resize k l) = k.
Proof.
  unfold resize. rewrite length_firstn, length_app, repeat_length. lia.
Qed.

Lemma resize_app_exact (k : nat) (l r : list bool) :
  length l = k -> resize k (l ++ r) = l.
Proof.
  intros H. unfold resize. rewrite <- app_assoc, firstn_app.
  rewrite H, Nat.sub_diag, firstn_O, app_nil_r.
  rewrite <- H. apply firstn_all.
Qed.

Lemma firstn_repeat_le (n k : nat) :
  (n <= k)%nat -> firstn n (repeat false k) = repeat false n.
Proof.
  intros H. replace k with (n + (k - n))%nat by lia.
  rewrite repeat_app, firstn_app, repeat_length, Nat.sub_diag, firstn_O.
  rewrite app_nil_r. apply firstn_all2. rewrite repeat_length. lia.
Qed.

Lemma resize_short (k : nat) (l : list bool) :
  (length l <= k)%nat -> resize k l = l ++ repeat false (k - length l).
Proof.
  intros H. unfold resize. rewrite firstn_app.
  rewrite firstn_all2 by assumption. f_equal.
  apply firstn_repeat_le. lia.
Qed.

Lemma resize_long (k : nat) (l : list bool) :
  (k <= length l)%nat -> resize k l = firstn k l.
Proof.
  intros H. unfold resize. rewrite firstn_app.
  replace (k - length l)%nat with 0%nat by lia.
  rewrite firstn_O. apply app_nil_r.
Qed.

Lemma length_chunks (k c : nat) (l : list bool) : length (chunks k c l) = c.
Proof.
  induction c as [| c IH] in l |- *; simpl; [reflexivity | now rewrite IH].
Qed.

Lemma chunks_Forall_length (k c : nat) (l : list bool) :
  Forall (fun g => length g = k) (chunks k c l).
Proof.
  induction c as [| c IH] in l |- *; simpl; constructor.
  - apply length_resize.
  - apply IH.
Qed.

(** Groups of equal size put one after the other are found again. *)
Lemma chunks_flat_map {A} (f : A -> list bool) (k : nat) (xs : list A)
    (r : list bool) :
  (forall x, length (f x) = k) ->
  chunks k (length xs) (flat_map f xs ++ r) = map f xs.
Proof.
  intros Hf. induction xs as [| x xs IH]; simpl; [reflexivity |].
  rewrite <- app_assoc. f_equal.
  - apply resize_app_exact, Hf.
  - rewrite skipn_app, Hf, Nat.sub_diag, skipn_O.
    rewrite skipn_all2 by (rewrite Hf; lia). exact IH.
Qed.

(** The groups of a list, put one after the other, are the list and its
    padding. *)
Lemma concat_chunks (k c : nat) (l : list bool) :
  (length l <= k * c)%nat ->
  concat (chunks k c l) = l ++ repeat false (k * c - length l).
Proof.
  induction c as [| c IH] in l |- *; intros H.
  - destruct l; [| simpl in H; lia].
    rewrite Nat.mul_0_r. reflexivity.
  - cbn [chunks concat]. rewrite IH by (rewrite length_skipn; lia).
    rewrite length_skipn.
    destruct (Nat.le_gt_cases k (length l)) as [Hk | Hk].
    + rewrite resize_long by assumption.
      rewrite app_assoc, firstn_skipn. f_equal. f_equal. lia.
    + rewrite resize_short by lia.
      rewrite skipn_all2 by lia. simpl app.
      rewrite <- app_assoc, <- repeat_app. f_equal. f_equal. lia.
Qed.

Lemma flat_map_id_concat (ls : list (list bool)) (f : list bool -> list bool) :
  Forall (fun g => f g = g) ls -> flat_map f ls = concat ls.
Proof.
  induction 1 as [| g ls Hg _ IH]; simpl; [reflexivity |].
  now rewrite Hg, IH.
Qed.

Lemma length_bytes_of_bits (l : list bool) :
  length (bytes_of_bits l) = Z.to_nat (cdiv (Z.of_nat (length l)) 8).
Proof.
  unfold bytes_of_bits. now rewrite length_map, length_chunks.
Qed.

Lemma cdiv_bounds (a : Z) : 0 <= a -> a <= 8 * cdiv a 8 < a + 8.
Proof.
  intros H. unfold cdiv.
  pose proof (Z.div_mod (a + 8 - 1) 8).
  pose proof (Z.mod_pos_bound (a + 8 - 1) 8). lia.
Qed.

(** Unpacking packed bits gives the bits back, zero-padded to whole bytes. *)
Lemma bits_of_bytes_of_bits (l : list bool) :
  exists pad, bits_of_bytes (bytes_of_bits l) = l ++ repeat false pad.
Proof.
  unfold bits_of_bytes, bytes_of_bits.
  set (c := Z.to_nat (cdiv (Z.of_nat (length l)) 8)).
  exists (8 * c - length l)%nat.
  rewrite flat_map_concat_map, map_map.
  rewrite (map_ext_Forall _ (fun g => g)).
  - rewrite map_id. apply concat_chunks.
    pose proof (cdiv_bounds (Z.of_nat (length l))). lia.
  - eapply Forall_impl; [| apply chunks_Forall_length].
    intros g Hg. apply bits_of_byte_of_bits. exact Hg.
Qed.

(** ** Scrambler *)

Lemma length_scramble_from (cd : Codec) (i : nat) (l : list bool) :
  length (scramble_from cd i l) = length l.
Proof.
  induction l as [| b l IH] in i |- *; simpl; [reflexivity | now rewrite IH].
Qed.

Lemma scramble_from_involutive (cd : Codec) (i : nat) (l : list bool) :
  scramble_from cd i (scramble_from cd i l) = l.
Proof.
  induction l as [| b l IH] in i |- *; simpl; [reflexivity |].
  rewrite IH. f_equal.
  destruct b, (scramble_seq cd i); reflexivity.
Qed.

Lemma scramble_involutive (cd : Codec) (l : list bool) :
  scramble cd (scramble cd l) = l.
Proof. apply scramble_from_involutive. Qed.

Lemma length_scramble (cd : Codec) (l : list bool) :
  length (scramble cd l) = length l.
Proof. apply length_scramble_from. Qed.

(** ** The pipeline on an error-free channel *)

Lemma cdiv_ge (a b : Z) : 0 < b -> a <= b * cdiv a b.
Proof.
  intros H. unfold cdiv.
  pose proof (Z.div_mod (a + b - 1) b).
  pose proof (Z.mod_pos_bound (a + b - 1) b). lia.
Qed.

Lemma length_flat_map_const {A} (f : A -> list bool) (k : nat) (xs : list A) :
  (forall x, length (f x) = k) ->
  length (flat_map f xs) = (k * length xs)%nat.
Proof.
  intros Hf. induction xs as [| x xs IH]; simpl; [lia |].
  rewrite length_app, Hf, IH. lia.
Qed.

Lemma flat_map_map {A B} (g : A -> B) (f : B -> list bool) (xs : list A) :
  flat_map f (map g xs) = flat_map (fun x => f (g x)) xs.
Proof.
  induction xs as [| x xs IH]; simpl; [reflexivity | now rewrite IH].
Qed.

Lemma crc16_range (init : Z) (l : list byte) : 0 <= crc16 init l < 2 ^ 16.
Proof.
  unfold crc16, u16. apply Z.mod_pos_bound. reflexivity.
Qed.

Lemma deframe_frame (block : list bool) :
  deframe (frame block) = (Synced, bytes_of_bits block).
Proof. reflexivity. Qed.

Lemma length_frame (block : list bool) :
  len (frame block) = 2 + cdiv (Z.of_nat (length block)) 8.
Proof.
  unfold len, frame. rewrite length_app, length_bytes_of_bits. simpl length.
  pose proof (cdiv_nonneg (Z.of_nat (length block)) 8). lia.
Qed.

Section ErrorFree.

Variable cd : Codec.
Hypothesis laws : CodecLaws cd.

Lemma length_encode_group (g : list bool) :
  length (encode_group cd g) = 23%nat.
Proof. apply length_bits_of_Z. Qed.

Lemma decode_encode_group (g : list bool) :
  length g = 12%nat ->
  decode_group cd (encode_group cd g) = (Z_of_bits g, Corrected 0).
Proof.
  intros H. unfold decode_group, encode_group.
  pose proof (Z_of_bits_range g) as R. rewrite H in R.
  rewrite Z_of_bits_of_Z by (apply (fec_encode_range cd laws); exact R).
  apply (fec_decode_encode cd laws). exact R.
Qed.

(** The coded block of a payload, before the frame is put around it. *)
Let data (p : list byte) : list bool :=
  bits_of_bytes p ++ bits_of_Z 16 (crc16 (crc_init cd) p).
Let groups (p : list byte) : list (list bool) :=
  chunks 12 (Z.to_nat (num_codewords (len p))) (data p).
Let coded (p : list byte) : list bool :=
  flat_map (encode_group cd) (groups p).

Lemma length_data (p : list byte) :
  length (data p) = (8 * length p + 16)%nat.
Proof.
  unfold data. rewrite length_app, length_bits_of_bytes, length_bits_of_Z.
  reflexivity.
Qed.

Lemma data_fits (p : list byte) :
  (length (data p) <= 12 * Z.to_nat (num_codewords (len p)))%nat.
Proof.
  rewrite length_data. unfold num_codewords, checksum_bits, len.
  pose proof (cdiv_ge (Z.of_nat (length p) * 8 + 16) 12). lia.
Qed.

Lemma length_coded (p : list byte) :
  length (coded p) = (23 * Z.to_nat (num_codewords (len p)))%nat.
Proof.
  unfold coded, groups.
  rewrite (length_flat_map_const _ 23) by apply length_encode_group.
  now rewrite length_chunks.
Qed.

(** The frame of a payload has the length the size function announces. *)
Lemma length_encode_frame (p : list byte) :
  len (encode_frame cd p) = transmit_size (len p).
Proof.
  unfold encode_frame. fold (data p). fold (groups p). fold (coded p).
  rewrite length_frame, length_scramble, (interleave_length cd laws).
  rewrite length_coded.
  unfold transmit_size, get_transmit_size, encoded_bit_count.
  pose proof (num_codewords_nonneg (len p)) as Hk. unfold len in *.
  do 2 f_equal. lia.
Qed.

(** Decoding the frame of a payload: the unique word is found, every
    codeword decodes without error, the payload comes back and the
    checksum agrees. *)
Lemma decode_frame_encode_frame (p : list byte) :
  decode_frame cd (encode_frame cd p) (len p) =
    {| rx_sync := Synced;
       rx_payload := p;
       rx_checksum_ok := true;
       rx_error_counts :=
         repeat (Corrected 0) (Z.to_nat (num_codewords (len p))) |}.
Proof.
  unfold encode_frame, decode_frame.
  fold (data p). fold (groups p). fold (coded p).
  rewrite deframe_frame.
  set (k := Z.to_nat (num_codewords (len p))).
  set (block := scramble cd (interleave cd (coded p))).
  assert (Hblock : length block = (23 * k)%nat).
  { subst block. rewrite length_scramble, (interleave_length cd laws).
    apply length_coded. }
  destruct (bits_of_bytes_of_bits block) as [pad ->].
  rewrite resize_app_exact by exact Hblock.
  subst block. rewrite scramble_involutive.
  rewrite (deinterleave_interleave cd laws).
  assert (Hgroups : length (groups p) = k) by apply length_chunks.
  assert (Hchunks : chunks 23 k (coded p) = map (encode_group cd) (groups p)).
  { rewrite <- Hgroups, <- (app_nil_r (coded p)).
    apply chunks_flat_map, length_encode_group. }
  rewrite Hchunks, map_map.
  assert (Hdec : map (fun g => decode_group cd (encode_group cd g))
                     (groups p)
                 = map (fun g => (Z_of_bits g, Corrected 0)) (groups p)).
  { apply map_ext_Forall.
    eapply Forall_impl; [| apply chunks_Forall_length].
    intros g Hg. apply decode_encode_group. exact Hg. }
  rewrite Hdec, flat_map_map, map_map. cbn [fst snd].
  assert (Hdata : flat_map (fun g => bits_of_Z 12 (Z_of_bits g)) (groups p)
                  = data p ++ repeat false (12 * k - length (data p))).
  { rewrite flat_map_id_concat.
    - apply concat_chunks, data_fits.
    - eapply Forall_impl; [| apply chunks_Forall_length].
      intros g Hg. cbv beta in Hg. rewrite <- Hg at 1.
      apply bits_of_Z_of_bits. }
  rewrite Hdata.
  assert (Hpayload :
    map byte_of_bits
      (chunks 8 (Z.to_nat (len p))
         (data p ++ repeat false (12 * k - length (data p)))) = p).
  { unfold data, bits_of_bytes. rewrite <- app_assoc.
    replace (Z.to_nat (len p)) with (length p) by (unfold len; lia).
    rewrite chunks_flat_map by apply length_bits_of_byte.
    rewrite map_map, (map_ext _ (fun b => b)) by apply byte_of_bits_of_byte.
    apply map_id. }
  rewrite Hpayload.
  assert (Hsum :
    Z_of_bits
      (resize 16
         (skipn (8 * Z.to_nat (len p))
            (data p ++ repeat false (12 * k - length (data p)))))
    = crc16 (crc_init cd) p).
  { unfold data. rewrite <- app_assoc, skipn_app.
    replace (Z.to_nat (len p)) with (length p) by (unfold len; lia).
    rewrite length_bits_of_bytes, Nat.sub_diag, skipn_O.
    rewrite skipn_all2 by (rewrite length_bits_of_bytes; lia).
    cbn [app]. rewrite resize_app_exact by apply length_bits_of_Z.
    apply Z_of_bits_of_Z, crc16_range. }
  rewrite Hsum, Z.eqb_refl, map_const, Hgroups. reflexivity.
Qed.

End ErrorFree.

(** ** The constants of [horus_codec] obey the laws *)

(** Checked by running the coder on each of the 4096 data words. *)
Lemma golay_words_ok :
  forallb golay_word_ok (map Z.of_nat (seq 0 4096)) = true.
Proof. vm_compute. reflexivity. Qed.

Lemma golay_word_ok_all (d : Z) : 0 <= d < 2 ^ 12 -> golay_word_ok d = true.
Proof.
  intros H.
  apply (proj1 (forallb_forall _ _) golay_words_ok).
  replace d with (Z.of_nat (Z.to_nat d)) by lia.
  apply in_map, in_seq.
  change (2 ^ 12) with 4096 in H. lia.
Qed.

Lemma golay_encode_range (d : Z) :
  0 <= d < 2 ^ 12 -> 0 <= golay_encode d < 2 ^ 23.
Proof.
  intros H. pose proof (golay_word_ok_all d H) as Hok.
  unfold golay_word_ok in Hok.
  apply andb_prop in Hok as [Hok _]. apply andb_prop in Hok as [H0 H1].
  apply Z.leb_le in H0. apply Z.ltb_lt in H1. split; assumption.
Qed.

Lemma golay_decode_encode (d : Z) :
  0 <= d < 2 ^ 12 -> golay_decode (golay_encode d) = (d, Corrected 0).
Proof.
  intros H. pose proof (golay_word_ok_all d H) as Hok.
  unfold golay_word_ok in Hok.
  apply andb_prop in Hok as [_ Hok].
  destruct (golay_decode (golay_encode d)) as [d' [[| n] |]];
    try discriminate Hok.
  apply Z.eqb_eq in Hok. now subst d'.
Qed.

Lemma length_permute (m : Z) (l : list bool) :
  length (permute m l) = length l.
Proof.
  unfold permute. now rewrite length_map, length_seq.
Qed.

Lemma nth_permute (m : Z) (l : list bool) (j : nat) :
  (j < length l)%nat ->
  nth j (permute m l) false =
  nth (Z.to_nat ((m * Z.of_nat j) mod Z.of_nat (length l))) l false.
Proof.
  intros H. unfold permute.
  rewrite (nth_indep _ false
             (nth (Z.to_nat ((m * Z.of_nat 0) mod Z.of_nat (length l)))
                  l false))
    by now rewrite length_map, length_seq.
  rewrite (map_nth (fun j =>
             nth (Z.to_nat ((m * Z.of_nat j) mod Z.of_nat (length l)))
                 l false)).
  rewrite seq_nth by assumption. reflexivity.
Qed.

(** Two steps that multiply to 1 modulo the length undo each other. *)
Lemma permute_inverse (b c : Z) (l : list bool) :
  (b * c) mod Z.of_nat (length l) = 1 ->
  permute b (permute c l) = l.
Proof.
  intros H.
  apply (nth_ext _ _ false false).
  - now rewrite !length_permute.
  - intros j Hj. rewrite !length_permute in Hj.
    assert (Hn : 0 < Z.of_nat (length l)) by lia.
    rewrite nth_permute by now rewrite length_permute.
    rewrite length_permute.
    pose proof (Z.mod_pos_bound (b * Z.of_nat j) (Z.of_nat (length l)) Hn).
    rewrite nth_permute by lia.
    f_equal.
    rewrite Z2Nat.id by lia.
    rewrite Z.mul_mod_idemp_r by lia.
    replace (c * (b * Z.of_nat j)) with ((b * c) * Z.of_nat j) by lia.
    rewrite <- Z.mul_mod_idemp_l, H, Z.mul_1_l by lia.
    rewrite Z.mod_small by lia. lia.
Qed.

Lemma step_inverse_some (b c : Z) (n : nat) :
  step_inverse b n = Some c -> (b * c) mod Z.of_nat n = 1.
Proof.
  unfold step_inverse. intros H.
  apply find_some in H as [_ H]. now apply Z.eqb_eq in H.
Qed.

Lemma length_prime_interleave (l : list bool) :
  length (prime_interleave l) = length l.
Proof.
  unfold prime_interleave.
  destruct (step_inverse _ _); [apply length_permute | reflexivity].
Qed.

Lemma prime_deinterleave_interleave (l : list bool) :
  prime_deinterleave (prime_interleave l) = l.
Proof.
  unfold prime_deinterleave.
  rewrite length_prime_interleave.
  unfold prime_interleave.
  destruct (step_inverse _ _) as [c |] eqn:E; [| reflexivity].
  apply permute_inverse, step_inverse_some, E.
Qed.

Lemma horus_codec_laws : CodecLaws horus_codec.
Proof.
  constructor.
  - exact golay_encode_range.
  - exact golay_decode_encode.
  - exact length_prime_interleave.
  - exact prime_deinterleave_interleave.
Qed.

(** ** The Golay coder corrects up to three errors *)

Lemma golay_reduce_lxor (i : nat) (x y : Z) :
  golay_reduce i (Z.lxor x y) =
  Z.lxor (golay_reduce i x) (golay_reduce i y).
Proof.
  induction i as [| i IH] in x, y |- *; [reflexivity |].
  cbn [golay_reduce]. rewrite Z.lxor_spec.
  set (g := Z.shiftl golay_genpoly (Z.of_nat i)).
  destruct (Z.testbit x (Z.of_nat (11 + i))),
           (Z.testbit y (Z.of_nat (11 + i))); cbn [xorb]; rewrite <- IH;
    f_equal.
  - rewrite Z.lxor_assoc, (Z.lxor_comm g (Z.lxor y g)).
    rewrite (Z.lxor_assoc y g g), Z.lxor_nilpotent, Z.lxor_0_r. reflexivity.
  - rewrite !Z.lxor_assoc. f_equal. apply Z.lxor_comm.
  - rewrite Z.lxor_assoc. reflexivity.
Qed.

Lemma golay_syndrome_lxor (x y : Z) :
  golay_syndrome (Z.lxor x y) =
  Z.lxor (golay_syndrome x) (golay_syndrome y).
Proof. apply golay_reduce_lxor. Qed.

Lemma golay_codewords_ok :
  forallb golay_codeword_ok (map Z.of_nat (seq 0 4096)) = true.
Proof. vm_compute. reflexivity. Qed.

Lemma golay_patterns_ok :
  forallb golay_pattern_ok golay_error_patterns = true.
Proof. vm_compute. reflexivity. Qed.

(** A codeword hit by a pattern of at most three errors decodes to its data,
    and the errors are counted. *)
Lemma golay_corrects (d e : Z) :
  0 <= d < 2 ^ 12 -> In e golay_error_patterns ->
  golay_decode (Z.lxor (golay_encode d) e) = (d, Corrected (weight e)).
Proof.
  intros Hd He.
  assert (Hc : golay_codeword_ok d = true).
  { apply (proj1 (forallb_forall _ _) golay_codewords_ok).
    replace d with (Z.of_nat (Z.to_nat d)) by lia.
    apply in_map, in_seq. change (2 ^ 12) with 4096 in Hd. lia. }
  pose proof (proj1 (forallb_forall _ _) golay_patterns_ok e He) as Hp.
  unfold golay_codeword_ok in Hc. apply andb_prop in Hc as [Hs Hdata].
  apply Z.eqb_eq in Hs, Hdata.
  unfold golay_pattern_ok in Hp.
  unfold golay_decode.
  rewrite golay_syndrome_lxor, Hs, Z.lxor_0_l.
  destruct (find _ golay_table) as [[s' e'] |]; [| discriminate Hp].
  apply Z.eqb_eq in Hp. subst e'.
  rewrite Z.lxor_assoc, Z.lxor_nilpotent, Z.lxor_0_r, Hdata. reflexivity.
Qed.

Example golay_pattern_count :
  length golay_error_patterns = 2048%nat
  /\ forallb (fun e => (weight e <=? 3)%nat) golay_error_patterns = true.
Proof. split; vm_compute; reflexivity. Qed.

(** ** C1: encoding, then decoding *)

(** What the binding returns for a payload when the native library is the
    codec: the frame and its length. *)
Lemma encode_packet_frame (cd : Codec) (p : list byte) (s : proc) :
  CodecLaws cd ->
  horus_l2_encode_packet (encoder_of (horus_lib cd)) (PyBytes p) s =
    (Ok (PyTuple [PyBytes (encode_frame cd p);
                  PyInt (transmit_size (len p))]),
     {| calls := (calls s ++ [CallGetNumTxDataBytes (len p)])
                 ++ [CallEncodeTxPacket p (len p)] |}).
Proof.
  intros laws.
  assert (Hn : 0 <= transmit_size (len p))
    by (apply transmit_size_nonneg; unfold len; lia).
  rewrite encode_packet_bytes by exact Hn.
  cbn [c_lib encoder_of horus_lib horus_l2_encode_tx_packet
       horus_l2_get_num_tx_data_bytes fst snd].
  replace (Z.to_nat (len p)) with (length p) by (unfold len; lia).
  rewrite firstn_all, (length_encode_frame cd laws).
  rewrite stored_exact; [reflexivity |].
  rewrite repeat_length.
  pose proof (length_encode_frame cd laws p) as H. unfold len in *. lia.
Qed.

(** C1, as the code has it.  For every payload of 22 or 32 bytes, the
    encoder binding returns a frame (with its length), and the decoder
    binding, given that frame and the length of the payload, returns exactly
    the payload, as one [bytes] object.  Inside the native decoder the
    checksum agrees, but no checksum flag is part of what the binding
    returns. *)
Theorem encode_decode_roundtrip (cd : Codec) (p : list byte) (s : proc) :
  CodecLaws cd ->
  length p = 22%nat \/ length p = 32%nat ->
  exists tx s1 s2,
    horus_l2_encode_packet (encoder_of (horus_lib cd)) (PyBytes p) s =
      (Ok (PyTuple [PyBytes tx; PyInt (len tx)]), s1)
    /\ horus_l2_decode_packet (encoder_of (horus_lib cd)) (PyBytes tx)
         (PyInt (len p)) s1 = (Ok (PyBytes p), s2)
    /\ rx_checksum_ok (decode_frame cd tx (len p)) = true.
Proof.
  intros laws Hlen.
  exists (encode_frame cd p). do 2 eexists. split; [| split].
  - rewrite (length_encode_frame cd laws).
    apply encode_packet_frame. exact laws.
  - rewrite decode_packet_bytes by (unfold len; size_bounds).
    cbn [c_lib encoder_of horus_lib horus_l2_decode_rx_packet].
    rewrite (decode_frame_encode_frame cd laws). cbn [rx_payload].
    rewrite stored_exact; [reflexivity |].
    rewrite repeat_length. unfold len. lia.
  - rewrite (decode_frame_encode_frame cd laws). reflexivity.
Qed.

Lemma encode_decode_roundtrip_witness :
  exists tx s1 s2,
    horus_l2_encode_packet (encoder_of libhorus)
      (PyBytes horus_v1_unencoded_bytes) initial =
      (Ok (PyTuple [PyBytes tx; PyInt (len tx)]), s1)
    /\ horus_l2_decode_packet (encoder_of libhorus) (PyBytes tx)
         (PyInt 22) s1 = (Ok (PyBytes horus_v1_unencoded_bytes), s2)
    /\ rx_checksum_ok (decode_frame horus_codec tx 22) = true.
Proof.
  apply (encode_decode_roundtrip horus_codec horus_v1_unencoded_bytes initial).
  - exact horus_codec_laws.
  - left. reflexivity.
Defined.

(** C1 as stated fails: decoding the frame of the sample payload gives the
    payload back, but not together with a checksum flag. *)
Lemma roundtrip_reports_no_checksum :
  ~ (exists tx k s1 error_counts s2,
       horus_l2_encode_packet (encoder_of libhorus)
         (PyBytes horus_v1_unencoded_bytes) initial =
         (Ok (PyTuple [PyBytes tx; PyInt k]), s1)
       /\ horus_l2_decode_packet (encoder_of libhorus) (PyBytes tx)
            (PyInt 22) s1 =
          (Ok (PyTuple [PyBytes horus_v1_unencoded_bytes; PyBool true;
                        error_counts]), s2)).
Proof.
  intros (tx & k & s1 & errs & s2 & _ & H).
  decode_shape_absurd H.
Qed.

(** The pair the encoder binding returns is not itself a frame for the
    decoder binding: it is a tuple, and is rejected as any input that is
    not [bytes]. *)
Remark decode_of_encode_result_raises (self : Encoder) (tx : list byte)
    (k : Z) (n : pyval) (s : proc) :
  horus_l2_decode_packet self (PyTuple [PyBytes tx; PyInt k]) n s =
    (Raise (TypeError "Input to encode_packet must be bytes!"), s).
Proof. reflexivity. Qed.

(** ** The model at work *)

Example transmit_size_v1_v2 : transmit_size 22 = 48 /\ transmit_size 32 = 69.
Proof. split; reflexivity. Qed.

Example crc16_check_value :
  crc16 0xFFFF [x31; x32; x33; x34; x35; x36; x37; x38; x39] = 0x29B1.
Proof. vm_compute. reflexivity. Qed.

Example golay_generator_word : golay_encode 1 = golay_genpoly.
Proof. vm_compute. reflexivity. Qed.

Example golay_three_errors :
  golay_decode (Z.lxor (golay_encode 1234) 0x10101) = (1234, Corrected 3).
Proof. vm_compute. reflexivity. Qed.

Example posix_join_paths :
  posix_join "" "libhorus.so" = "libhorus.so"%string
  /\ posix_join "/usr/lib" "libhorus.so" = "/usr/lib/libhorus.so"%string
  /\ posix_join "build/" "libhorus.so" = "build/libhorus.so"%string.
Proof. repeat split; reflexivity. Qed.

(** The native decoder on the frame of the sample payload. *)
Example sample_payload_native_roundtrip :
  decode_frame horus_codec
    (encode_frame horus_codec horus_v1_unencoded_bytes) 22 =
  {| rx_sync := Synced;
     rx_payload := horus_v1_unencoded_bytes;
     rx_checksum_ok := true;
     rx_error_counts := repeat (Corrected 0) 16 |}.
Proof. vm_compute. reflexivity. Qed.

(** On a damaged frame the native decoder sees the checksum fail; the
    binding returns 22 bytes all the same. *)
Example damaged_frame_native_status :
  rx_checksum_ok
    (decode_frame horus_codec (unique_word ++ repeat xff 46) 22) = false
  /\ exists payload s',
       horus_l2_decode_packet (encoder_of libhorus)
         (PyBytes (unique_word ++ repeat xff 46)) (PyInt 22) initial =
         (Ok (PyBytes payload), s')
       /\ length payload = 22%nat.
Proof.
  split; [vm_compute; reflexivity |].
  do 2 eexists. split; [apply decode_packet_bytes; size_bounds |].
  rewrite stored_length. reflexivity.
Qed.

(** Without the unique word the native decoder stores nothing and the
    binding returns the zero-filled array. *)
Example unsynced_frame_gives_zeros :
  fst (horus_l2_decode_packet (encoder_of libhorus) (PyBytes [x00; x01; x02])
         (PyInt 5) initial) = Ok (PyBytes [x00; x00; x00; x00; x00]).
Proof. vm_compute. reflexivity. Qed.

(** Two encoders in one process. *)
Example two_encoders_trace :
  calls (linux_run [New ""; GetNumTxDataBytes (encoder_of libhorus) 22;
                    New "/usr/lib"] initial) =
  [CallInit; CallGetNumTxDataBytes 22; CallInit].
Proof. vm_compute. reflexivity. Qed.

(** A library that cannot be loaded: the constructor raises and nothing is
    initialised. *)
Example load_failure :
  Encoder_init "linux" posix_join (fun _ => None) "" initial =
  (Raise (OSError "libhorus.so"), initial).
Proof. reflexivity. Qed.

(** * More of the binding *)

(** ** The encoder binding: when it fails, and what it returns *)

(** X1.  On a [bytes] payload the encoder binding fails exactly when the
    native library answers a negative size for it.  It then raises
    [ValueError], having made the size query only: the native encoder is
    not called. *)
Theorem encode_packet_fails_iff (self : Encoder) (packet : list byte)
    (s : proc) :
  ((exists e s', horus_l2_encode_packet self (PyBytes packet) s = (Raise e, s'))
   <-> horus_l2_get_num_tx_data_bytes (c_lib self) (len packet) < 0)
  /\ (horus_l2_get_num_tx_data_bytes (c_lib self) (len packet) < 0 ->
      horus_l2_encode_packet self (PyBytes packet) s =
        (Raise (ValueError "Array length must be >= 0"),
         {| calls := calls s ++ [CallGetNumTxDataBytes (len packet)] |})).
Proof.
  split; [| apply encode_packet_negative_size].
  split.
  - intros (e & s' & H).
    destruct (Z.lt_ge_cases
                (horus_l2_get_num_tx_data_bytes (c_lib self) (len packet)) 0)
      as [Hn | Hn]; [exact Hn |].
    rewrite encode_packet_bytes in H by exact Hn. discriminate H.
  - intros Hn. do 2 eexists. apply encode_packet_negative_size. exact Hn.
Qed.

Lemma encode_packet_fails_iff_witness :
  horus_l2_encode_packet (encoder_of undersized_lib) (PyBytes [x00; x01])
                         initial =
    (Raise (ValueError "Array length must be >= 0"),
     {| calls := [CallGetNumTxDataBytes 2] |}).
Proof.
  apply (proj2 (encode_packet_fails_iff (encoder_of undersized_lib)
                  [x00; x01] initial)).
  reflexivity.
Defined.

(** X2.  What the encoder binding returns is not a frame for the decoder
    binding.  Any successful result is a pair, which the decoder binding
    rejects with the module's [TypeError]; its first component is [bytes],
    which the decoder binding accepts with any size from 0 to
    [2^31 - 1]. *)
Theorem encode_result_must_be_unpacked (self self' : Encoder)
    (v r n : pyval) (s s1 s2 : proc) :
  horus_l2_encode_packet self v s = (Ok r, s1) ->
  horus_l2_decode_packet self' r n s2 =
    (Raise (TypeError "Input to encode_packet must be bytes!"), s2)
  /\ exists tx k,
       r = PyTuple [PyBytes tx; PyInt k]
       /\ forall z, 0 <= z <= INT_MAX ->
            exists out s3,
              horus_l2_decode_packet self' (PyBytes tx) (PyInt z) s2 =
                (Ok (PyBytes out), s3).
Proof.
  intros H.
  destruct v; try discriminate H.
  destruct (Z.lt_ge_cases
              (horus_l2_get_num_tx_data_bytes (c_lib self) (len l)) 0)
    as [Hn | Hn].
  - rewrite encode_packet_negative_size in H by exact Hn. discriminate H.
  - rewrite encode_packet_bytes in H by exact Hn.
    injection H as Hr _. subst r. split; [reflexivity |].
    do 2 eexists. split; [reflexivity |].
    intros z Hz. do 2 eexists. apply decode_packet_bytes. exact Hz.
Qed.

Lemma encode_result_must_be_unpacked_witness :
  exists tx k,
    horus_l2_encode_packet (encoder_of libhorus)
      (PyBytes horus_v1_unencoded_bytes) initial
      = (Ok (PyTuple [PyBytes tx; PyInt k]),
         {| calls := [CallGetNumTxDataBytes 22;
                      CallEncodeTxPacket horus_v1_unencoded_bytes 22] |})
    /\ horus_l2_decode_packet (encoder_of libhorus)
         (PyTuple [PyBytes tx; PyInt k]) (PyInt 22) initial =
       (Raise (TypeError "Input to encode_packet must be bytes!"), initial).
Proof.
  do 2 eexists.
  assert (H : horus_l2_encode_packet (encoder_of libhorus)
                (PyBytes horus_v1_unencoded_bytes) initial
              = (Ok (PyTuple
                       [PyBytes (encode_frame horus_codec
                                   horus_v1_unencoded_bytes);
                        PyInt 48]),
                 {| calls := [CallGetNumTxDataBytes 22;
                              CallEncodeTxPacket horus_v1_unencoded_bytes
                                                 22] |}))
    by (vm_compute; reflexivity).
  split; [exact H |].
  exact (proj1 (encode_result_must_be_unpacked (encoder_of libhorus)
                  (encoder_of libhorus) _ _ (PyInt 22) _ _ initial H)).
Defined.

(** ** Arrays are zero-filled and keep their length *)

Lemma firstn_repeat_min {A} (x : A) (k n : nat) :
  firstn k (repeat x n) = repeat x (Nat.min k n).
Proof.
  induction k as [| k IH] in n |- *; [reflexivity |].
  destruct n as [| n]; [reflexivity |]. simpl. now rewrite IH.
Qed.

Lemma skipn_repeat {A} (x : A) (k n : nat) :
  skipn k (repeat x n) = repeat x (n - k).
Proof.
  induction k as [| k IH] in n |- *.
  - now rewrite Nat.sub_0_r.
  - destruct n as [| n]; [reflexivity |]. simpl. apply IH.
Qed.

(** A zero-filled array after a store that fits: the bytes stored, then
    zero bytes up to the length of the array. *)
Lemma stored_zero_filled (src : list byte) (n : nat) :
  (length src <= n)%nat ->
  stored src (repeat zero_byte n) =
  src ++ repeat zero_byte (n - length src).
Proof.
  intros H. unfold stored. rewrite repeat_length.
  rewrite firstn_all2 by exact H. now rewrite skipn_repeat.
Qed.

(** X3.  When the native code stores no more than the array it is given
    holds, both bindings return the bytes it stored followed by zero bytes
    up to the length of the array they allocated: the payload size asked
    for, for the decoder; the size the library announced, for the encoder.
    A position the native code did not write reads as zero. *)
Theorem results_are_zero_padded (self : Encoder)
    (packet : list byte) (n : Z) (s : proc) :
  0 <= n <= INT_MAX ->
  0 <= horus_l2_get_num_tx_data_bytes (c_lib self) (len packet) ->
  (length (horus_l2_decode_rx_packet (c_lib self) packet n)
   <= Z.to_nat n)%nat ->
  (length (fst (horus_l2_encode_tx_packet (c_lib self) packet (len packet)))
   <= Z.to_nat (horus_l2_get_num_tx_data_bytes (c_lib self) (len packet)))%nat ->
  (exists s',
     horus_l2_decode_packet self (PyBytes packet) (PyInt n) s =
       (Ok (PyBytes
              (horus_l2_decode_rx_packet (c_lib self) packet n
               ++ repeat zero_byte
                    (Z.to_nat n
                     - length (horus_l2_decode_rx_packet (c_lib self)
                                                         packet n)))), s'))
  /\ (exists k s',
        horus_l2_encode_packet self (PyBytes packet) s =
          (Ok (PyTuple
                 [PyBytes
                    (fst (horus_l2_encode_tx_packet (c_lib self) packet
                                                    (len packet))
                     ++ repeat zero_byte
                          (Z.to_nat (horus_l2_get_num_tx_data_bytes
                                       (c_lib self) (len packet))
                           - length (fst (horus_l2_encode_tx_packet
                                            (c_lib self) packet
                                            (len packet)))));
                  PyInt k]), s')).
Proof.
  intros Hn Hsize Hdec Henc. split.
  - eexists. rewrite decode_packet_bytes by exact Hn.
    rewrite stored_zero_filled by exact Hdec. reflexivity.
  - do 2 eexists. rewrite encode_packet_bytes by exact Hsize.
    rewrite stored_zero_filled by exact Henc. reflexivity.
Qed.

Lemma results_are_zero_padded_witness :
  (exists s',
     horus_l2_decode_packet (encoder_of libhorus)
       (PyBytes horus_v1_unencoded_bytes) (PyInt 5) initial =
       (Ok (PyBytes [x00; x00; x00; x00; x00]), s'))
  /\ (exists tx k s',
        horus_l2_encode_packet (encoder_of libhorus)
          (PyBytes horus_v1_unencoded_bytes) initial =
          (Ok (PyTuple [PyBytes tx; PyInt k]), s')).
Proof.
  destruct (results_are_zero_padded (encoder_of libhorus)
              horus_v1_unencoded_bytes 5 initial) as [Hd (k & s' & He)].
  - unfold INT_MAX. lia.
  - vm_compute. discriminate.
  - vm_compute. lia.
  - vm_compute. lia.
  - split; [exact Hd |]. do 3 eexists. exact He.
Defined.

(** ** The [with] statement *)

(** X4.  Using an encoder in a [with] block is using it plainly: entering
    gives the encoder itself, leaving makes no native call and releases
    nothing, and an exception raised in the block is raised by the block. *)
Theorem with_Encoder_is_plain_use {A} (expr : M Encoder)
    (body : Encoder -> M A) (s : proc) :
  with_Encoder expr body s = bind expr body s.
Proof.
  unfold with_Encoder, bind, Encoder_enter, Encoder_exit, close, ret.
  destruct (expr s) as [[mgr | e] s1]; [| reflexivity].
  destruct (body mgr s1) as [[a | e] s3]; reflexivity.
Qed.

(** ** The native calls of a process *)

(** What one step adds to the calls of the process. *)
Lemma perform_calls (sys_platform : string)
    (os_path_join : string -> string -> string)
    (LoadLibrary : string -> option SharedObject) (s : proc) (a : action) :
  let s' := perform sys_platform os_path_join LoadLibrary s a in
  match a with
  | New _ => calls s' = calls s \/ calls s' = calls s ++ [CallInit]
  | GetNumTxDataBytes _ n => calls s' = calls s ++ [CallGetNumTxDataBytes n]
  | EncodePacket _ v =>
      calls s' = calls s
      \/ calls s' = calls s ++ [CallGetNumTxDataBytes (len (bytes_of v))]
      \/ calls s' = (calls s ++ [CallGetNumTxDataBytes (len (bytes_of v))])
                    ++ [CallEncodeTxPacket (bytes_of v) (len (bytes_of v))]
  | DecodePacket _ v _ =>
      calls s' = calls s
      \/ exists n, calls s' = calls s ++ [CallDecodeRxPacket (bytes_of v) n]
  | Close _ => calls s' = calls s
  end.
Proof.
  destruct a as [p | self n | self v | self v n | self]; cbn zeta.
  - unfold perform. rewrite Encoder_init_state.
    destruct (fst (Encoder_init _ _ _ _ initial)); cbn [snd];
      [right | left]; reflexivity.
  - reflexivity.
  - unfold perform, horus_l2_encode_packet.
    destruct (negb _); [left; reflexivity |].
    unfold bind, get_num_tx_data_bytes, native, c_ubyte_array. simpl.
    destruct (Z.ltb _ 0); simpl; [right; left; reflexivity |].
    destruct (horus_l2_encode_tx_packet _ _ _). right; right. reflexivity.
  - unfold perform, horus_l2_decode_packet.
    destruct (negb _); [left; reflexivity |].
    unfold bind, as_ssize_t, c_ubyte_array, c_int_arg.
    destruct (index_of n) as [z |]; cbn [raise snd]; [| left; reflexivity].
    destruct (_ || _); cbn [raise ret snd index_of]; [left; reflexivity |].
    destruct (Z.ltb z 0); cbn [raise ret snd]; [left; reflexivity |].
    destruct (_ || _); cbn [raise ret snd native]; [left; reflexivity |].
    right. eexists. reflexivity.
  - reflexivity.
Qed.

Lemma encode_calls_sized_step (sys_platform : string)
    (os_path_join : string -> string -> string)
    (LoadLibrary : string -> option SharedObject) (s : proc) (a : action) :
  encode_calls_sized s = true ->
  encode_calls_sized (perform sys_platform os_path_join LoadLibrary s a)
  = true.
Proof.
  intros H. unfold encode_calls_sized in *.
  pose proof (perform_calls sys_platform os_path_join LoadLibrary s a) as P.
  cbn zeta in P.
  destruct a as [p | self n | self v | self v n | self].
  - destruct P as [-> | ->]; [exact H |]. rewrite rev_unit. exact H.
  - rewrite P, rev_unit. exact H.
  - destruct P as [-> | [-> | ->]]; [exact H | |].
    + rewrite rev_unit. exact H.
    + rewrite !rev_unit. cbn [encodes_sized].
      rewrite !Z.eqb_refl. exact H.
  - destruct P as [-> | [z ->]]; [exact H |]. rewrite rev_unit. exact H.
  - rewrite P. exact H.
Qed.

(** X5.  Whatever a process does with the module, every call of the native
    encoder is given the true length of the payload array it reads, and
    comes right after a size query for that same length; the property is
    kept by every step, failing ones included. *)
Theorem encode_calls_stay_sized (sys_platform : string)
    (os_path_join : string -> string -> string)
    (LoadLibrary : string -> option SharedObject)
    (acts : list action) (s : proc) :
  encode_calls_sized s = true ->
  encode_calls_sized (run sys_platform os_path_join LoadLibrary acts s)
  = true.
Proof.
  unfold run. revert s.
  induction acts as [| a acts IH]; intros s H; [exact H |].
  simpl. apply IH, encode_calls_sized_step, H.
Qed.

Lemma encode_calls_stay_sized_witness :
  encode_calls_sized
    (linux_run
       [New "";
        EncodePacket (encoder_of libhorus) (PyBytes horus_v1_unencoded_bytes);
        EncodePacket (encoder_of libhorus) (PyStr "not bytes");
        DecodePacket (encoder_of libhorus) (PyBytes horus_v1_encoded_bytes)
                     (PyInt 22);
        EncodePacket (encoder_of libhorus) (PyBytes [])]
       initial) = true.
Proof.
  apply (encode_calls_stay_sized "linux" posix_join (fun _ => Some libhorus_so)).
  reflexivity.
Defined.

(** ** A client and its encoders *)

Lemma init_runs_app (l extra : list native_call) :
  filter is_init extra = [] ->
  init_runs {| calls := l ++ extra |} = init_runs {| calls := l |}.
Proof.
  intros H. unfold init_runs. simpl. rewrite filter_app, H, app_nil_r.
  reflexivity.
Qed.

(** A method call adds native calls, none of them the initialisation. *)
Lemma method_calls (sys_platform : string)
    (os_path_join : string -> string -> string)
    (LoadLibrary : string -> option SharedObject) (s : proc) (self : Encoder)
    (m : method) :
  exists extra,
    calls (perform sys_platform os_path_join LoadLibrary s (action_of self m))
    = calls s ++ extra
    /\ filter is_init extra = [].
Proof.
  pose proof (perform_calls sys_platform os_path_join LoadLibrary s
                (action_of self m)) as P.
  cbn zeta in P. destruct m as [n | v | v n |]; cbn [action_of] in *.
  - eexists. split; [exact P | reflexivity].
  - destruct P as [-> | [-> | ->]].
    + exists []. now rewrite app_nil_r.
    + eexists. split; reflexivity.
    + rewrite <- app_assoc. eexists. split; reflexivity.
  - destruct P as [-> | [z ->]].
    + exists []. now rewrite app_nil_r.
    + eexists. split; reflexivity.
  - exists []. now rewrite app_nil_r.
Qed.

Lemma session_ok_step (sys_platform : string)
    (os_path_join : string -> string -> string)
    (LoadLibrary : string -> option SharedObject) (st : session)
    (c : statement) :
  session_ok st ->
  session_ok (execute sys_platform os_path_join LoadLibrary st c).
Proof.
  intros (Hnone & Hfirst & Hcount).
  destruct c as [libpath | obj m]; unfold execute.
  - rewrite Encoder_init_state.
    destruct (fst (Encoder_init _ _ _ _ initial)) as [e | x];
      [| repeat split; assumption].
    unfold session_ok; simpl. split; [| split].
    + intros H. destruct (objects st); discriminate H.
    + destruct (calls (process st)); simpl; [reflexivity | exact Hfirst].
    + rewrite init_runs_snoc, init_runs_eta, length_app, Hcount.
      reflexivity.
  - destruct (nth_error (objects st) obj) as [self |] eqn:E;
      [| repeat split; assumption].
    destruct (method_calls sys_platform os_path_join LoadLibrary
                (process st) self m) as (extra & Hcalls & Hextra).
    assert (Hobj : objects st <> []).
    { intros H. rewrite H in E. destruct obj; discriminate E. }
    assert (Hne : calls (process st) <> []).
    { intros H. unfold init_runs in Hcount. rewrite H in Hcount.
      simpl in Hcount. destruct (objects st); [now apply Hobj |].
      discriminate Hcount. }
    unfold session_ok; simpl. split; [| split].
    + intros H. now apply Hobj in H.
    + rewrite Hcalls.
      destruct (calls (process st)); [exfalso; now apply Hne |].
      exact Hfirst.
    + rewrite <- Hcount. unfold init_runs at 1. rewrite Hcalls.
      change (init_runs {| calls := calls (process st) ++ extra |}
              = init_runs (process st)).
      rewrite init_runs_app by exact Hextra. apply init_runs_eta.
Qed.

(** X6.  A client gets its encoders from the constructor only, so in
    whatever it does: no native call is made while it holds no encoder; the
    first native call of the process is [horus_l2_init], before any size
    query, encode or decode; and [horus_l2_init] has run exactly once per
    encoder held. *)
Theorem init_comes_first (sys_platform : string)
    (os_path_join : string -> string -> string)
    (LoadLibrary : string -> option SharedObject) (prog : list statement) :
  session_ok (session_run sys_platform os_path_join LoadLibrary prog).
Proof.
  unfold session_run.
  assert (H0 : session_ok {| objects := []; process := initial |})
    by (repeat split; reflexivity).
  revert H0. generalize {| objects := []; process := initial |}.
  induction prog as [| c prog IH]; intros st H; [exact H |].
  simpl. apply IH, session_ok_step, H.
Qed.

(** ** The script *)

Lemma Encoder_init_ok (sys_platform : string)
    (os_path_join : string -> string -> string)
    (LoadLibrary : string -> option SharedObject) (libpath : string)
    (s s1 : proc) (e : Encoder) :
  Encoder_init sys_platform os_path_join LoadLibrary libpath s = (Ok e, s1) ->
  s1 = {| calls := calls s ++ [CallInit] |}.
Proof.
  rewrite Encoder_init_state.
  destruct (fst (Encoder_init _ _ _ _ initial)); intros H.
  - now injection H as _ <-.
  - discriminate H.
Qed.

Lemma unhexlify_unencoded :
  unhexlify horus_v1_unencoded = Some horus_v1_unencoded_bytes.
Proof. vm_compute. reflexivity. Qed.

Lemma unhexlify_encoded :
  unhexlify horus_v1_encoded = Some horus_v1_encoded_bytes.
Proof. vm_compute. reflexivity. Qed.

Lemma length_upper_hexlify (l : list byte) :
  String.length (upper (hexlify l)) = (2 * length l)%nat.
Proof.
  induction l as [| b l IH]; [reflexivity |].
  cbn [hexlify upper String.length length]. rewrite IH. lia.
Qed.

Section MainFacts.

Variable sys_platform : string.
Variable os_path_join : string -> string -> string.
Variable LoadLibrary : string -> option SharedObject.

Local Notation "'init'" :=
  (Encoder_init sys_platform os_path_join LoadLibrary "").
Local Notation "'script'" := (main sys_platform os_path_join LoadLibrary).

(** Without a library the script stops in the constructor, before it prints
    anything. *)
Lemma main_no_library (w : world) (x : pyexc) (s1 : proc) :
  init (w_proc w) = (Raise x, s1) ->
  script w = (Raise x, w).
Proof.
  intros H. destruct (Encoder_init_exceptions _ _ _ _ _ _ _ H) as [-> _].
  destruct w as [s out]. unfold main, sbind, lift. cbn [w_proc w_stdout] in *.
  rewrite H. reflexivity.
Qed.

(** With a library that gives a negative size for 22 bytes the script stops
    in the encoder binding, after four lines. *)
Lemma main_negative_size (w : world) (e : Encoder) (s1 : proc) :
  init (w_proc w) = (Ok e, s1) ->
  horus_l2_get_num_tx_data_bytes (c_lib e) 22 < 0 ->
  exists w',
    script w = (Raise (ValueError "Array length must be >= 0"), w')
    /\ length (w_stdout w') = (length (w_stdout w) + 4)%nat.
Proof.
  intros H Hn. destruct w as [s out]. cbn [w_proc w_stdout] in *.
  eexists. split.
  - unfold main, sbind, lift. cbn [w_proc w_stdout]. rewrite H.
    unfold get_num_tx_data_bytes, native, print. cbn [w_proc w_stdout].
    unfold codecs_decode_hex. rewrite unhexlify_unencoded.
    unfold sret. cbn [w_proc w_stdout].
    rewrite encode_packet_negative_size by exact Hn. reflexivity.
  - cbn [w_stdout]. rewrite !length_app. simpl. lia.
Qed.

(** With a library that gives a non-negative size for 22 bytes the script
    runs to its end. *)
Lemma main_runs (w : world) (e : Encoder) (s1 : proc) :
  init (w_proc w) = (Ok e, s1) ->
  0 <= horus_l2_get_num_tx_data_bytes (c_lib e) 22 ->
  script w =
    (Ok tt,
     {| w_proc :=
          {| calls :=
               calls (w_proc w)
               ++ [CallInit; CallGetNumTxDataBytes 22;
                   CallGetNumTxDataBytes 32; CallGetNumTxDataBytes 22;
                   CallEncodeTxPacket horus_v1_unencoded_bytes 22;
                   CallDecodeRxPacket horus_v1_encoded_bytes 22] |};
        w_stdout :=
          w_stdout w
          ++ [("Horus v1: 22 bytes in, "
               ++ str_of_int (horus_l2_get_num_tx_data_bytes (c_lib e) 22)
               ++ " bytes out.")%string;
              ("Horus v2: 32 bytes in, "
               ++ str_of_int (horus_l2_get_num_tx_data_bytes (c_lib e) 32)
               ++ " bytes out.")%string;
              "Encoder Tests: "%string;
              ("  Horus v1 Input:  " ++ horus_v1_unencoded)%string;
              ("  Horus v1 Output: "
               ++ upper (hexlify
                    (stored
                       (fst (horus_l2_encode_tx_packet (c_lib e)
                               horus_v1_unencoded_bytes 22))
                       (repeat zero_byte
                          (Z.to_nat (horus_l2_get_num_tx_data_bytes
                                       (c_lib e) 22))))))%string;
              "Decoder Tests:"%string;
              ("  Horus v1 Input:  " ++ horus_v1_encoded)%string;
              ("  Horus v1 Output: "
               ++ upper (hexlify
                    (stored
                       (horus_l2_decode_rx_packet (c_lib e)
                          horus_v1_encoded_bytes 22)
                       (repeat zero_byte 22))))%string] |}).
Proof.
  intros H Hn. destruct w as [s out]. cbn [w_proc w_stdout] in *.
  pose proof (Encoder_init_ok _ _ _ _ _ _ _ H) as ->.
  unfold main, sbind, lift. cbn [w_proc w_stdout]. rewrite H.
  unfold get_num_tx_data_bytes, native, print. cbn [w_proc w_stdout].
  unfold codecs_decode_hex. rewrite unhexlify_unencoded, unhexlify_encoded.
  unfold sret. cbn [w_proc w_stdout].
  rewrite encode_packet_bytes by exact Hn.
  change (len horus_v1_unencoded_bytes) with 22.
  cbn [unpack_pair sret codecs_encode_hex_upper w_proc w_stdout].
  rewrite decode_packet_bytes by size_bounds.
  cbn [codecs_encode_hex_upper sret w_proc w_stdout calls].
  change (Z.to_nat 22) with 22%nat.
  repeat rewrite <- app_assoc. reflexivity.
Qed.

(** X7.  How the script ends.  When the constructor fails the script stops
    with its exception, nothing printed and no native call made: [OSError]
    when the library cannot be loaded, [AttributeError] when the library
    lacks one of the entry points the constructor reaches.  When the
    library gives a negative size for 22 bytes the script stops with
    [ValueError] in the encoder binding, four lines printed.  In every other
    case it runs to its end: eight lines printed, the library initialised
    once. *)
Theorem main_outcomes (w : world) :
  match init (w_proc w) with
  | (Raise x, _) =>
      script w = (Raise x, w)
      /\ ((exists path, x = OSError path)
          \/ (exists name, In name horus_exports /\ x = AttributeError name))
  | (Ok e, _) =>
      if horus_l2_get_num_tx_data_bytes (c_lib e) 22 <? 0
      then exists w',
             script w = (Raise (ValueError "Array length must be >= 0"), w')
             /\ length (w_stdout w') = (length (w_stdout w) + 4)%nat
      else exists w',
             script w = (Ok tt, w')
             /\ length (w_stdout w') = (length (w_stdout w) + 8)%nat
             /\ init_runs (w_proc w') = (init_runs (w_proc w) + 1)%nat
  end.
Proof.
  destruct (init (w_proc w)) as [[e | x] s1] eqn:H.
  - destruct (Z.ltb_spec (horus_l2_get_num_tx_data_bytes (c_lib e) 22) 0)
      as [Hn | Hn].
    + apply (main_negative_size w e s1 H Hn).
    + eexists. split; [apply (main_runs w e s1 H Hn) |].
      cbn [w_stdout w_proc]. split.
      * rewrite length_app. reflexivity.
      * unfold init_runs. cbn [calls]. rewrite filter_app, length_app.
        reflexivity.
  - split; [apply (main_no_library w x s1 H) |].
    apply (Encoder_init_exceptions _ _ _ _ _ _ _ H).
Qed.

(** X8.  What the script does when it runs to its end: it prints the two
    sizes the library gives, encodes the sample payload and prints twice as
    many hexadecimal digits as the size for 22 bytes, then decodes the
    sample frame it carries (not the frame it has just encoded) with size
    22 and prints 44 hexadecimal digits. *)
Theorem main_output (w : world) (e : Encoder) (s1 : proc) :
  init (w_proc w) = (Ok e, s1) ->
  0 <= horus_l2_get_num_tx_data_bytes (c_lib e) 22 ->
  exists out1 out2 w',
    script w = (Ok tt, w')
    /\ w_stdout w' =
         w_stdout w
         ++ [("Horus v1: 22 bytes in, "
              ++ str_of_int (horus_l2_get_num_tx_data_bytes (c_lib e) 22)
              ++ " bytes out.")%string;
             ("Horus v2: 32 bytes in, "
              ++ str_of_int (horus_l2_get_num_tx_data_bytes (c_lib e) 32)
              ++ " bytes out.")%string;
             "Encoder Tests: "%string;
             "  Horus v1 Input:  000900071E2A000000000000000000000000259A6B14"%string;
             ("  Horus v1 Output: " ++ out1)%string;
             "Decoder Tests:"%string;
             "  Horus v1 Input:  2424C06B300D0415C5DBD332EFD7C190D7AF7F3C2891DE9F4BA1EB2B437BE1E2D8419D3DC9E44FDF78DAA07A98"%string;
             ("  Horus v1 Output: " ++ out2)%string]
    /\ String.length out1 =
         (2 * Z.to_nat (horus_l2_get_num_tx_data_bytes (c_lib e) 22))%nat
    /\ String.length out2 = 44%nat
    /\ calls (w_proc w') =
         calls (w_proc w)
         ++ [CallInit; CallGetNumTxDataBytes 22; CallGetNumTxDataBytes 32;
             CallGetNumTxDataBytes 22;
             CallEncodeTxPacket horus_v1_unencoded_bytes 22;
             CallDecodeRxPacket horus_v1_encoded_bytes 22].
Proof.
  intros H Hn. do 3 eexists.
  split; [apply (main_runs w e s1 H Hn) |].
  cbn [w_stdout w_proc calls].
  split; [reflexivity |]. split; [| split; [| reflexivity]].
  - rewrite length_upper_hexlify, stored_length, repeat_length. reflexivity.
  - rewrite length_upper_hexlify, stored_length, repeat_length. reflexivity.
Qed.

End MainFacts.

Lemma main_output_witness :
  exists out1 out2 w',
    main "linux" posix_join (fun _ => Some libhorus_so)
         {| w_proc := initial; w_stdout := [] |} = (Ok tt, w')
    /\ nth 0 (w_stdout w') ""%string
       = "Horus v1: 22 bytes in, 48 bytes out."%string
    /\ nth 4 (w_stdout w') ""%string = ("  Horus v1 Output: " ++ out1)%string
    /\ nth 7 (w_stdout w') ""%string = ("  Horus v1 Output: " ++ out2)%string
    /\ String.length out1 = 96%nat
    /\ String.length out2 = 44%nat.
Proof.
  destruct (main_output "linux" posix_join (fun _ => Some libhorus_so)
              {| w_proc := initial; w_stdout := [] |}
              (encoder_of libhorus) {| calls := [CallInit] |})
    as (out1 & out2 & w' & Hrun & Hout & H1 & H2 & _).
  - reflexivity.
  - vm_compute. discriminate.
  - exists out1, out2, w'. rewrite Hout.
    repeat split; try assumption; reflexivity.
Defined.

(** The script against a library whose size query fails. *)
Example main_undersized_library :
  main "linux" posix_join
       (fun _ => Some {| exports := horus_exports;
                         entry_points := undersized_lib |})
       {| w_proc := initial; w_stdout := [] |} =
  (Raise (ValueError "Array length must be >= 0"),
   {| w_proc := {| calls := [CallInit; CallGetNumTxDataBytes 22;
                             CallGetNumTxDataBytes 32;
                             CallGetNumTxDataBytes 22] |};
      w_stdout := ["Horus v1: 22 bytes in, -1 bytes out.";
                   "Horus v2: 32 bytes in, -1 bytes out.";
                   "Encoder Tests: ";
                   "  Horus v1 Input:  000900071E2A000000000000000000000000259A6B14"]%string |}).
Proof. vm_compute. reflexivity. Qed.

(** The script against a library that loads but exports no
    [horus_l2_gen_crc16]: the constructor raises before it initialises
    anything. *)
Example main_incomplete_library :
  main "linux" posix_join
       (fun _ => Some {| exports := ["horus_l2_get_num_tx_data_bytes";
                                     "horus_l2_encode_tx_packet";
                                     "horus_l2_decode_rx_packet";
                                     "horus_l2_init"]%string;
                         entry_points := libhorus |})
       {| w_proc := initial; w_stdout := [] |} =
  (Raise (AttributeError "horus_l2_gen_crc16"),
   {| w_proc := initial; w_stdout := [] |}).
Proof. vm_compute. reflexivity. Qed.

(** A size query with an argument that fits no C [long]: refused by
    [ctypes], no native call made. *)
Example size_query_refused :
  get_num_tx_data_bytes_call (encoder_of libhorus) (2 ^ 64 + 22) initial =
  (Raise (ArgumentError "int too long to convert"), initial).
Proof. apply get_num_call_refused. right. lia. Qed.
